(** * resume-composer: placeholder substitution, verified against its specification

    A shallow embedding of [src/resume_composer/substitute_resume.py]
    (class [ResumeSubstituter] and the driver around it) and of the pure
    part of [src/resume_composer/generate_profiles.py], with the
    properties their specification states and further ones the code shows.

    Conventions of the embedding.
    - A Python [str] is a [string]; its characters are the code points
      0..255 (Latin-1), which covers every literal of the program.
    - The configuration is whatever [json.load] returned: a value of type
      [json].  A Python [dict] is an association list in insertion order
      whose first binding of a key is the live one.
    - A Python call either returns or raises: [outcome].
    - Logging is not modelled; file reads and writes are the caller's. *)

From Stdlib Require Import String Ascii List ZArith Lia Bool Arith.
From Stdlib Require Import DecimalString.
Import ListNotations.

Open Scope list_scope.
Open Scope string_scope.

(** ** Python values and calls *)

(** What [json.load] can produce.  A float is carried by its [repr], the
    only way this program can observe it. *)
#[warning="-register-all"]
Inductive json : Type :=
| JNull
| JBool (b : bool)
| JInt (z : Z)
| JFloat (repr : string)
| JStr (s : string)
| JArr (items : list json)
| JObj (fields : list (string * json)).

Inductive exn : Type := TypeError | KeyError.

Inductive outcome (A : Type) : Type :=
| Returned (a : A)
| Raised (e : exn).

Arguments Returned {A} a.
Arguments Raised {A} e.

Definition bind {A B : Type} (m : outcome A) (k : A -> outcome B) : outcome B :=
  match m with
  | Returned a => k a
  | Raised e => Raised e
  end.

Notation "x <- m ;; k" := (bind m (fun x => k))
  (at level 61, m at next level, right associativity).

(** [dict.get]-style lookup in an insertion-ordered dictionary. *)
Fixpoint dict_get {V : Type} (key : string) (d : list (string * V)) : option V :=
  match d with
  | [] => None
  | (k, v) :: rest => if String.eqb key k then Some v else dict_get key rest
  end.

Definition dict_has {V : Type} (key : string) (d : list (string * V)) : bool :=
  match dict_get key d with Some _ => true | None => false end.

(** [needle in hay] on two [str]: substring test. *)
Fixpoint str_contains (needle hay : string) : bool :=
  prefix needle hay ||
  match hay with
  | EmptyString => false
  | String _ rest => str_contains needle rest
  end.

Definition is_this_str (s : string) (v : json) : bool :=
  match v with JStr t => String.eqb s t | _ => false end.

(** [key in container] for a [str] key: membership in a dict's keys,
    substring of a str, equality with a list element; the other JSON
    values are not iterable. *)
Definition py_in (key : string) (container : json) : outcome bool :=
  match container with
  | JObj fields => Returned (dict_has key fields)
  | JStr s => Returned (str_contains key s)
  | JArr items => Returned (existsb (is_this_str key) items)
  | JNull | JBool _ | JInt _ | JFloat _ => Raised TypeError
  end.

(** [container[key]] for a [str] key. *)
Definition py_getitem (container : json) (key : string) : outcome json :=
  match container with
  | JObj fields =>
      match dict_get key fields with
      | Some v => Returned v
      | None => Raised KeyError
      end
  | _ => Raised TypeError
  end.

(** ** [str(value)] *)

Definition hex_digit (n : nat) : ascii :=
  match n with
  | 0 => "0" | 1 => "1" | 2 => "2" | 3 => "3" | 4 => "4" | 5 => "5"
  | 6 => "6" | 7 => "7" | 8 => "8" | 9 => "9" | 10 => "a" | 11 => "b"
  | 12 => "c" | 13 => "d" | 14 => "e" | _ => "f"
  end%char.

Definition hex_escape (c : ascii) : string :=
  let n := nat_of_ascii c in
  String "\" (String "x" (String (hex_digit (n / 16)) (String (hex_digit (n mod 16)) EmptyString))).

(** Code points that [repr] leaves as they are. *)
Definition is_printable (c : ascii) : bool :=
  let n := nat_of_ascii c in
  ((32 <=? n)%nat && (n <? 127)%nat) || ((161 <=? n)%nat && negb (n =? 173)%nat).

Definition repr_char (quote c : ascii) : string :=
  if Ascii.eqb c quote || Ascii.eqb c "\" then String "\" (String c EmptyString)
  else if Ascii.eqb c "009" then "\t"
  else if Ascii.eqb c "010" then "\n"
  else if Ascii.eqb c "013" then "\r"
  else if is_printable c then String c EmptyString
  else hex_escape c.

Fixpoint has_char (c : ascii) (s : string) : bool :=
  match s with
  | EmptyString => false
  | String d rest => Ascii.eqb c d || has_char c rest
  end.

Fixpoint repr_chars (quote : ascii) (s : string) : string :=
  match s with
  | EmptyString => EmptyString
  | String c rest => repr_char quote c ++ repr_chars quote rest
  end.

Definition repr_str (s : string) : string :=
  let quote := if has_char "'" s && negb (has_char "034" s) then "034"%char else "'"%char in
  String quote (repr_chars quote s ++ String quote EmptyString).

Fixpoint py_repr (v : json) : string :=
  match v with
  | JNull => "None"
  | JBool true => "True"
  | JBool false => "False"
  | JInt z => NilEmpty.string_of_int (Z.to_int z)
  | JFloat r => r
  | JStr s => repr_str s
  | JArr items => "[" ++ String.concat ", " (map py_repr items) ++ "]"
  | JObj fields =>
      "{" ++ String.concat ", "
               (map (fun kv => let '(k, x) := kv in repr_str k ++ ": " ++ py_repr x) fields)
          ++ "}"
  end.

(** The value a resolver branch returns: the stored value when it is a
    [str], [str(value)] otherwise. *)
Definition coerce_to_str (value : json) : string :=
  match value with
  | JStr s => s
  | _ => py_repr value
  end.

(** ** Tag resolver *)

(** [f"<{placeholder_id}>"] *)
Definition placeholder_marker (placeholder_id : string) : string :=
  "<" ++ placeholder_id ++ ">".

(** The loop [for tag in tags: if tag in placeholder_config: ... return]:
    [Some text] when an iteration returned, [None] when the loop ran out. *)
Fixpoint scan_tags (placeholder_config : json) (tags : list string)
  : outcome (option string) :=
  match tags with
  | [] => Returned None
  | tag :: rest =>
      hit <- py_in tag placeholder_config ;;
      if hit then
        value <- py_getitem placeholder_config tag ;;
        Returned (Some (coerce_to_str value))
      else scan_tags placeholder_config rest
  end.

Definition _get_value_for_placeholder
  (config : json) (placeholder_id : string) (tags : list string) : outcome string :=
  known <- py_in placeholder_id config ;;
  if negb known then Returned (placeholder_marker placeholder_id)
  else
    placeholder_config <- py_getitem config placeholder_id ;;
    match placeholder_config with
    | JNull => Returned (placeholder_marker placeholder_id)
    | _ =>
        by_tag <- scan_tags placeholder_config tags ;;
        match by_tag with
        | Some text => Returned text
        | None =>
            has_default <- py_in "default" placeholder_config ;;
            if has_default then
              value <- py_getitem placeholder_config "default" ;;
              Returned (coerce_to_str value)
            else Returned (placeholder_marker placeholder_id)
        end
    end.


(** ** Country classifier *)

(** [str.lower] on the code points 0..255: A-Z and the accented capitals
    of Latin-1 move 32 up, everything else stays. *)
Definition lower_char (c : ascii) : ascii :=
  let n := nat_of_ascii c in
  if ((65 <=? n)%nat && (n <=? 90)%nat)
     || ((192 <=? n)%nat && (n <=? 222)%nat && negb (n =? 215)%nat)
  then ascii_of_nat (n + 32)
  else c.

Fixpoint str_lower (s : string) : string :=
  match s with
  | EmptyString => EmptyString
  | String c rest => String (lower_char c) (str_lower rest)
  end.

(** [x in s] for a set of [str]. *)
Definition set_mem (x : string) (s : list string) : bool :=
  existsb (String.eqb x) s.

Definition direct_mappings : list (string * string) :=
  [ ("uk", "uk"); ("united kingdom", "uk"); ("britain", "uk");
    ("great britain", "uk"); ("england", "uk"); ("scotland", "uk");
    ("wales", "uk"); ("northern ireland", "uk");
    ("usa", "usa"); ("united states", "usa"); ("us", "usa");
    ("america", "usa"); ("switzerland", "switzerland"); ("spain", "spain") ].

Definition european_countries : list string :=
  [ "germany"; "france"; "italy"; "netherlands"; "belgium"; "austria";
    "denmark"; "sweden"; "norway"; "finland"; "portugal"; "greece";
    "poland"; "czech republic"; "hungary"; "slovenia"; "slovakia";
    "estonia"; "latvia"; "lithuania"; "luxembourg"; "malta"; "cyprus";
    "ireland"; "romania"; "bulgaria"; "croatia" ].

Definition map_country_to_tag (country : string) : string :=
  let country_lower := str_lower country in
  match dict_get country_lower direct_mappings with
  | Some tag => tag
  | None =>
      if set_mem country_lower european_countries then "europe" else "default"
  end.

(** ** [pathlib] on POSIX, as far as the path builder uses it *)

Record pure_path : Type := { root : string; parts : list string }.

(** [s.split(sep)] *)
Fixpoint split_on (sep : ascii) (s : string) : list string :=
  match s with
  | EmptyString => [EmptyString]
  | String c rest =>
      if Ascii.eqb c sep then EmptyString :: split_on sep rest
      else match split_on sep rest with
           | head :: tail => String c head :: tail
           | [] => [String c EmptyString]
           end
  end.

(** Exactly two leading slashes are kept, any other number is one. *)
Definition path_root (s : string) : string :=
  match s with
  | String "/" (String "/" (String "/" _)) => "/"
  | String "/" (String "/" _) => "//"
  | String "/" _ => "/"
  | _ => EmptyString
  end.

Definition is_real_part (p : string) : bool :=
  negb (String.eqb p EmptyString || String.eqb p ".").

(** [Path(s)] *)
Definition Path (s : string) : pure_path :=
  {| root := path_root s; parts := filter is_real_part (split_on "/" s) |}.

(** [p / segment]: an absolute segment replaces what is on its left. *)
Definition joinpath (p : pure_path) (segment : string) : pure_path :=
  let q := Path segment in
  match root q with
  | EmptyString => {| root := root p; parts := (parts p ++ parts q)%list |}
  | _ => q
  end.

(** [str(p)] *)
Definition path_str (p : pure_path) : string :=
  match root p, parts p with
  | EmptyString, [] => "."
  | r, ps => r ++ String.concat "/" ps
  end.

(** [p.name] *)
Definition path_name (p : pure_path) : string := last (parts p) EmptyString.

(** [name.rfind('.')] *)
Fixpoint rfind_dot (name : string) : option nat :=
  match name with
  | EmptyString => None
  | String c rest =>
      match rfind_dot rest with
      | Some i => Some (S i)
      | None => if Ascii.eqb c "." then Some 0 else None
      end
  end.

(** The index at which [stem] and [suffix] cut the name, when they do:
    [0 < i < len(name) - 1]. *)
Definition suffix_index (name : string) : option nat :=
  match rfind_dot name with
  | Some i => if (0 <? i)%nat && (i <? String.length name - 1)%nat then Some i else None
  | None => None
  end.

Definition path_suffix (p : pure_path) : string :=
  let name := path_name p in
  match suffix_index name with
  | Some i => substring i (String.length name - i) name
  | None => EmptyString
  end.

Definition path_stem (p : pure_path) : string :=
  let name := path_name p in
  match suffix_index name with
  | Some i => substring 0 i name
  | None => name
  end.

(** ** Output path builder *)

Definition country_tags : list string :=
  [ "uk"; "usa"; "switzerland"; "europe"; "spain" ].

Definition position_tags : list string :=
  [ "engineer"; "researcher"; "data_scientist"; "developer";
    "software_engineer"; "software_developer" ].

(** The three locals the classification loop assigns. *)
Record buckets : Type :=
  { country : option string; position : option string; other_tags : list string }.

Definition no_buckets : buckets :=
  {| country := None; position := None; other_tags := [] |}.

(** One iteration of [for tag in tags]. *)
Definition classify_tag (b : buckets) (tag : string) : buckets :=
  if set_mem tag country_tags then
    {| country := Some tag; position := position b; other_tags := other_tags b |}
  else if set_mem tag position_tags then
    {| country := country b; position := Some tag; other_tags := other_tags b |}
  else
    {| country := country b; position := position b;
       other_tags := (other_tags b ++ [tag])%list |}.

Definition partition_tags (tags : list string) : buckets :=
  fold_left classify_tag tags no_buckets.

(** [x if x else fallback] for an optional [str]: [None] and the empty
    string are falsy. *)
Definition or_else (x : option string) (fallback : string) : string :=
  match x with
  | Some (String c s) => String c s
  | _ => fallback
  end.

Definition folder_name_of (others : list string) : string :=
  match others with
  | [] => "_base"
  | _ => "_base_" ++ String.concat "_" others
  end.

Definition folder_country_of (country_original country_tag : string) : string :=
  match country_original with
  | EmptyString => country_tag
  | _ => country_original
  end.

(** The returned path.  The [mkdir] of its parent is a file-system
    effect and is not part of the model. *)
Definition create_folder_structure
  (tags : list string) (base_output_file country_original : string) : string :=
  let b := partition_tags tags in
  let country := or_else (country b) "default" in
  let position := or_else (position b) "general" in
  let base_name := path_stem (Path base_output_file) in
  let extension := path_suffix (Path base_output_file) in
  let folder_name := folder_name_of (other_tags b) in
  let folder_country := folder_country_of country_original country in
  let folder_path := joinpath (joinpath (Path folder_country) folder_name) "Position" in
  let output_path := joinpath folder_path (base_name ++ extension) in
  path_str output_path.

(** ** Template substitution engine *)

(** The character class [[a-zA-Z0-9_]]. *)
Definition is_ident_char (c : ascii) : bool :=
  let n := nat_of_ascii c in
  ((97 <=? n)%nat && (n <=? 122)%nat) || ((65 <=? n)%nat && (n <=? 90)%nat)
  || ((48 <=? n)%nat && (n <=? 57)%nat) || (n =? 95)%nat.

(** The longest run of identifier characters at the head, and what
    follows it. *)
Fixpoint take_ident (s : string) : string * string :=
  match s with
  | EmptyString => (EmptyString, EmptyString)
  | String c rest =>
      if is_ident_char c
      then let (id, tail) := take_ident rest in (String c id, tail)
      else (EmptyString, s)
  end.

(** The placeholder pattern of [substitute_file] (an opening angle
    bracket, one or more of [[a-zA-Z0-9_]], a closing angle bracket)
    anchored at the head of [s]: the identifier it captures and the text after the match. *)
Definition match_placeholder (s : string) : option (string * string) :=
  match s with
  | String "<" after =>
      match take_ident after with
      | (String c id, String ">" rest) => Some (String c id, rest)
      | _ => None
      end
  | _ => None
  end.

(** [re.findall] of the placeholder pattern in [content]: the captured
    identifiers of the matches, left to right, no two overlapping.  [skip]
    counts the characters of the current match still to pass over. *)
Fixpoint findall_from (skip : nat) (s : string) : list string :=
  match s with
  | EmptyString => []
  | String _ rest =>
      match skip with
      | S k => findall_from k rest
      | O =>
          match match_placeholder s with
          | Some (id, _) => id :: findall_from (S (String.length id)) rest
          | None => findall_from 0 rest
          end
      end
  end.

Definition findall_placeholders (content : string) : list string :=
  findall_from 0 content.

(** [content.replace(old, new)] for a non-empty [old]. *)
Fixpoint replace_from (skip : nat) (old new s : string) : string :=
  match s with
  | EmptyString => EmptyString
  | String c rest =>
      match skip with
      | S k => replace_from k old new rest
      | O =>
          if prefix old s
          then new ++ replace_from (String.length old - 1) old new rest
          else String c (replace_from 0 old new rest)
      end
  end.

(** [replace] with an empty [old] puts [new] around every character. *)
Fixpoint intersperse (new s : string) : string :=
  match s with
  | EmptyString => new
  | String c rest => new ++ String c (intersperse new rest)
  end.

Definition str_replace (old new s : string) : string :=
  match old with
  | EmptyString => intersperse new s
  | _ => replace_from 0 old new s
  end.

(** [len(re.findall(re.escape(old), content))]: the non-overlapping
    literal occurrences, left to right. *)
Fixpoint count_from (skip : nat) (old s : string) : nat :=
  match s with
  | EmptyString => 0
  | String _ rest =>
      match skip with
      | S k => count_from k old rest
      | O =>
          if prefix old s
          then S (count_from (String.length old - 1) old rest)
          else count_from 0 old rest
      end
  end.

Definition count_occurrences (old s : string) : nat :=
  match old with
  | EmptyString => S (String.length s)
  | _ => count_from 0 old s
  end.

(** What a run of [substitute_file] leaves behind: the text it writes,
    the total it logs, and the value each iteration resolved. *)
Record substitution : Type :=
  { content : string;
    substitution_count : nat;
    resolved : list (string * string) }.

(** Nothing substituted yet. *)
Definition untouched (text : string) : substitution :=
  {| content := text; substitution_count := 0; resolved := [] |}.

(** The loop [for placeholder_id in set(placeholders)], over the
    identifiers in the order the set yields them. *)
Fixpoint substitute_loop
  (config : json) (tags : list string) (ids : list string) (st : substitution)
  : outcome substitution :=
  match ids with
  | [] => Returned st
  | placeholder_id :: rest =>
      value <- _get_value_for_placeholder config placeholder_id tags ;;
      let pattern := placeholder_marker placeholder_id in
      let occurrences := count_occurrences pattern (content st) in
      substitute_loop config tags rest
        {| content := str_replace pattern value (content st);
           substitution_count := substitution_count st + occurrences;
           resolved := (resolved st ++ [(placeholder_id, value)])%list |}
  end.

(** The order in which [set(placeholders)] is iterated is Python's
    business: any function that lists each distinct element once. *)
Definition set_order : Type := list string -> list string.

Definition is_set_iteration (iterate : set_order) : Prop :=
  forall l, NoDup (iterate l) /\ (forall x, In x (iterate l) <-> In x l).

(** [substitute_file] between reading [input_file] and writing
    [output_file]: from the text read to the text written.  When no
    placeholder is found the text is written back as it is and the
    function returns before any substitution: none is counted and
    nothing is resolved. *)
Definition substitute_file
  (iterate : set_order) (config : json) (text : string) (tags : list string)
  : outcome substitution :=
  let placeholders := findall_placeholders text in
  match placeholders with
  | [] => Returned (untouched text)
  | _ => substitute_loop config tags (iterate placeholders) (untouched text)
  end.

(** Two iteration orders: by last appearance, and its reverse. *)
Definition in_order : set_order := nodup string_dec.
Definition in_reverse : set_order := fun l => rev (nodup string_dec l).

(** ** Reference: substitution in one pass

    The specification's reading of the engine: every placeholder span of
    the template is replaced by the value of its identifier, everything
    else is copied, and nothing that was put in is looked at again. *)
Fixpoint one_pass_from (skip : nat) (value_of : string -> string) (s : string) : string :=
  match s with
  | EmptyString => EmptyString
  | String c rest =>
      match skip with
      | S k => one_pass_from k value_of rest
      | O =>
          match match_placeholder s with
          | Some (id, _) => value_of id ++ one_pass_from (S (String.length id)) value_of rest
          | None => String c (one_pass_from 0 value_of rest)
          end
      end
  end.

Definition substitute_one_pass (value_of : string -> string) (text : string) : string :=
  one_pass_from 0 value_of text.

(** ** Command-line driver: [process_resume_substitution]

    What the function computes between loading the configuration and
    calling [substitute_file]: the tag list and the output file name. *)

(** [str.isspace] on the code points 0..255. *)
Definition is_space (c : ascii) : bool :=
  let n := nat_of_ascii c in
  ((9 <=? n)%nat && (n <=? 13)%nat) || ((28 <=? n)%nat && (n <=? 32)%nat)
  || (n =? 133)%nat || (n =? 160)%nat.

Fixpoint str_lstrip (s : string) : string :=
  match s with
  | EmptyString => EmptyString
  | String c rest => if is_space c then str_lstrip rest else s
  end.

Fixpoint str_rstrip (s : string) : string :=
  match s with
  | EmptyString => EmptyString
  | String c rest =>
      match str_rstrip rest with
      | EmptyString => if is_space c then EmptyString else String c EmptyString
      | kept => String c kept
      end
  end.

(** [s.strip()] *)
Definition str_strip (s : string) : string := str_lstrip (str_rstrip s).

(** The truth value of a [str]. *)
Definition truthy (s : string) : bool :=
  match s with EmptyString => false | _ => true end.

(** [[tag.strip() for tag in text.split(",") if tag.strip()]] *)
Definition split_tags (text : string) : list string :=
  map str_strip (filter (fun tag => truthy (str_strip tag)) (split_on "," text)).

(** The attributes of [args] the function reads after the configuration
    is loaded; an option that was not given is [None]. *)
Record arguments : Type :=
  { arg_tags : option string;
    arg_country : option string;
    arg_output : option string;
    arg_input : string;
    arg_use_folders : bool;
    arg_no_folders : bool }.

(** [x] when it is given and not empty. *)
Definition given (x : option string) : option string :=
  match x with
  | Some (String c s) => Some (String c s)
  | _ => None
  end.

(** [tags] as passed to [substitute_file]: the parsed [--tags], with the
    tag of [--country] put in front unless it is default. *)
Definition run_tags (args : arguments) : list string :=
  let tags :=
    match given (arg_tags args) with
    | Some text => split_tags text
    | None => []
    end in
  match given (arg_country args) with
  | Some country =>
      let country_tag := map_country_to_tag country in
      if String.eqb country_tag "default" then tags else country_tag :: tags
  | None => tags
  end.

(** [country_original] *)
Definition run_country_original (args : arguments) : string :=
  match given (arg_country args) with
  | Some country => country
  | None => EmptyString
  end.

(** A [pathlib] call that returns a path or raises [ValueError]. *)
Inductive path_result (A : Type) : Type :=
| PathOk (a : A)
| PathValueError.

Arguments PathOk {A} a.
Arguments PathValueError {A}.

(** [p.with_name(name)]: the path must have a name, and the new name
    must be a single part. *)
Definition with_name (p : pure_path) (name : string) : path_result pure_path :=
  match path_name p with
  | EmptyString => PathValueError
  | _ =>
      if negb (truthy name) || has_char "/" name || String.eqb name "."
      then PathValueError
      else PathOk {| root := root p; parts := (removelast (parts p) ++ [name])%list |}
  end.

(** [p.with_stem(stem)] for a [stem] that is not empty. *)
Definition with_stem (p : pure_path) (stem : string) : path_result pure_path :=
  with_name p (stem ++ path_suffix p).

(** [output_file] as passed to [substitute_file]. *)
Definition run_output_file (args : arguments) : path_result string :=
  let tags := run_tags args in
  let use_folders := arg_use_folders args && negb (arg_no_folders args) in
  match given (arg_output args) with
  | Some output => PathOk output
  | None =>
      let input_path := Path (arg_input args) in
      if match tags with [] => false | _ => true end && use_folders then
        match with_stem input_path (path_stem input_path ++ "_" ++ String.concat "_" tags) with
        | PathOk base_output =>
            PathOk (create_folder_structure tags (path_str base_output)
                      (run_country_original args))
        | PathValueError => PathValueError
        end
      else
        let tag_suffix :=
          match tags with
          | [] => "_default"
          | _ => "_" ++ String.concat "_" tags
          end in
        match with_stem input_path (path_stem input_path ++ tag_suffix) with
        | PathOk output => PathOk (path_str output)
        | PathValueError => PathValueError
        end
  end.

(** ** Batch driver: [generate_profiles.py] *)

(** A call that returns or ends the process with [sys.exit(code)]. *)
Inductive exit_or (A : Type) : Type :=
| Completed (a : A)
| SystemExit (code : nat).

Arguments Completed {A} a.
Arguments SystemExit {A} code.

(** The loop that fills [non_empty_lines] and [line_mapping]: each
    non-empty line with its original line number, counted from
    [original_line_num]. *)
Fixpoint number_non_empty (lines : list string) (original_line_num : nat)
  : list (nat * string) :=
  match lines with
  | [] => []
  | line :: rest =>
      if truthy (str_strip line)
      then (original_line_num, line) :: number_non_empty rest (S original_line_num)
      else number_non_empty rest (S original_line_num)
  end.

(** The loop over the lines below the country line. *)
Fixpoint collect_profiles (lines : list string) : list (list string) :=
  match lines with
  | [] => []
  | line :: rest =>
      if truthy (str_strip line) then
        match split_tags line with
        | [] => collect_profiles rest
        | tags => tags :: collect_profiles rest
        end
      else collect_profiles rest
  end.

(** [read_profiles_file] from the lines that iterating over the open
    file yields. *)
Definition read_profiles_file (file_lines : list string)
  : exit_or (list string * list (list string)) :=
  let lines := map str_strip file_lines in
  match lines with
  | [] => SystemExit 1
  | _ =>
      match number_non_empty lines 1 with
      | [] => SystemExit 1
      | (first_country_line_num, first_line) :: _ =>
          match split_tags first_line with
          | [] => SystemExit 1
          | countries =>
              match collect_profiles (skipn first_country_line_num lines) with
              | [] => SystemExit 1
              | profiles => Completed (countries, profiles)
              end
          end
      end
  end.

(** The [Namespace] that [generate_resume] hands to
    [process_resume_substitution]. *)
Definition generate_resume_args (country : string) (tags : list string)
  (input_file : string) : arguments :=
  {| arg_tags := Some (String.concat "," tags);
     arg_country := Some country;
     arg_output := None;
     arg_input := input_file;
     arg_use_folders := true;
     arg_no_folders := false |}.

(** The calls of [generate_resume] that [main] makes, in order. *)
Definition combinations (countries : list string) (profiles : list (list string))
  : list (string * list string) :=
  flat_map (fun country => map (fun profile => (country, profile)) profiles) countries.

(** ** Vocabulary of the properties *)

(** The tags the classifier can answer. *)
Definition classifier_tags : list string :=
  [ "uk"; "usa"; "switzerland"; "spain"; "europe"; "default" ].

(** The first and the last tag of a list that belongs to a set. *)
Definition first_match (set : list string) (tags : list string) : option string :=
  find (fun t => set_mem t set) tags.

Definition last_match (set : list string) (tags : list string) : option string :=
  find (fun t => set_mem t set) (rev tags).

Definition is_other_tag (t : string) : bool :=
  negb (set_mem t country_tags) && negb (set_mem t position_tags).

(** A path segment that [pathlib] keeps as one part: not empty, not a
    single dot, and free of slashes. *)
Definition plain_segment (s : string) : Prop :=
  has_char "/" s = false /\ s <> EmptyString /\ s <> ".".

(** An identifier of the placeholder grammar: one or more identifier
    characters. *)
Fixpoint all_ident (s : string) : bool :=
  match s with
  | EmptyString => true
  | String c rest => is_ident_char c && all_ident rest
  end.

Definition valid_ident (id : string) : Prop :=
  id <> EmptyString /\ all_ident id = true.

(** [p] occurs somewhere in [s]. *)
Definition occurs (p s : string) : Prop := exists a b, s = a ++ p ++ b.

(** The text after the identifiers [done] have been processed: their
    spans show their values, the other spans still show their markers. *)
Definition stage (value_of : string -> string) (done : list string) (id : string)
  : string :=
  if in_dec string_dec id done then value_of id else placeholder_marker id.

(** What the spans of the other identifiers are filled with, the spans
    of [id] themselves being blanked out. *)
Definition elsewhere (value_of : string -> string) (id : string) (other : string)
  : string :=
  if string_dec other id then " " else value_of other.

(** The text between the brackets of a span that the placeholder grammar
    rejects: free of brackets, and not an identifier. *)
Definition malformed (inner : string) : Prop :=
  has_char "<" inner = false /\ has_char ">" inner = false /\ ~ valid_ident inner.

(** A tag as [split_tags] produces them: not empty, without a comma,
    and with no white space at either end. *)
Definition clean_tag (t : string) : Prop :=
  t <> EmptyString /\ has_char "," t = false /\ str_strip t = t.


(** The markers of [spans] stand in [text], in this order and apart from
    one another. *)
Fixpoint hosts (spans : list string) (text : string) : Prop :=
  match spans with
  | [] => True
  | id :: rest =>
      exists before after,
        text = before ++ placeholder_marker id ++ after /\ hosts rest after
  end.

(** * Properties *)

(** ** Strings *)

Lemma append_nil_r (s : string) : s ++ EmptyString = s.
Proof. induction s as [|c s IH]; simpl; [reflexivity | now rewrite IH]. Qed.

Lemma append_assoc (a b c : string) : (a ++ b) ++ c = a ++ (b ++ c).
Proof. induction a as [|x a IH]; simpl; [reflexivity | now rewrite IH]. Qed.

Lemma length_append (a b : string) :
  String.length (a ++ b) = String.length a + String.length b.
Proof. induction a as [|x a IH]; simpl; [reflexivity | now rewrite IH]. Qed.

Lemma prefix_true (p s : string) : prefix p s = true <-> exists r, s = p ++ r.
Proof.
  revert s; induction p as [|c p IH]; intros s.
  - destruct s; simpl; (split; [intros _; eexists; reflexivity | reflexivity]).
  - destruct s as [|d s]; simpl.
    + split; [discriminate | intros [r H]; discriminate].
    + destruct (ascii_dec c d) as [->|ne].
      * rewrite IH. split; intros [r H]; exists r; [now rewrite H | now injection H].
      * split; [discriminate | intros [r H]; injection H; congruence].
Qed.

(** ** Tag resolver *)

Lemma scan_tags_miss (entry : list (string * json)) (tags : list string) :
  Forall (fun t => dict_get t entry = None) tags ->
  scan_tags (JObj entry) tags = Returned None.
Proof.
  induction 1 as [|t tags Ht _ IH]; simpl; [reflexivity|].
  unfold dict_has. now rewrite Ht.
Qed.

Lemma scan_tags_hit (entry : list (string * json)) (before after : list string)
  (tag : string) (value : json) :
  Forall (fun t => dict_get t entry = None) before ->
  dict_get tag entry = Some value ->
  scan_tags (JObj entry) (before ++ tag :: after) = Returned (Some (coerce_to_str value)).
Proof.
  intros Hmiss Hhit.
  induction Hmiss as [|t before Ht _ IH]; simpl.
  - unfold dict_has. now rewrite Hhit.
  - unfold dict_has. now rewrite Ht.
Qed.

Lemma resolve_in_mapping (fields entry : list (string * json)) (id : string)
  (tags : list string) :
  dict_get id fields = Some (JObj entry) ->
  _get_value_for_placeholder (JObj fields) id tags =
  (by_tag <- scan_tags (JObj entry) tags ;;
   match by_tag with
   | Some text => Returned text
   | None =>
       match dict_get "default" entry with
       | Some v => Returned (coerce_to_str v)
       | None => Returned (placeholder_marker id)
       end
   end).
Proof.
  intros H. unfold _get_value_for_placeholder. simpl. unfold dict_has. rewrite H. simpl.
  destruct (scan_tags (JObj entry) tags) as [[text|]|e]; simpl; try reflexivity.
  unfold dict_has. destruct (dict_get "default" entry); reflexivity.
Qed.

(** C1 (as the code behaves): an entry that is a JSON number makes the
    resolver raise [TypeError] for every tag list, the empty one included;
    it does not return the placeholder marker. *)
Theorem number_entry_raises (fields : list (string * json)) (id : string)
  (tags : list string) (z : Z) :
  dict_get id fields = Some (JInt z) ->
  _get_value_for_placeholder (JObj fields) id tags = Raised TypeError.
Proof.
  intros H. unfold _get_value_for_placeholder. simpl. unfold dict_has. rewrite H. simpl.
  destruct tags; reflexivity.
Qed.

Lemma number_entry_raises_witness :
  _get_value_for_placeholder
    (JObj [("1", JObj [("default", JStr "John")]); ("2", JInt 42)]) "2" []
  = Raised TypeError.
Proof. refine (number_entry_raises _ "2" [] 42 _). reflexivity. Defined.

(** The null entry is guarded, and a string entry answers the membership
    tests as a string: it falls back to the marker only while no tag and
    not the word default is a substring of it. *)
Example other_malformed_entries :
  _get_value_for_placeholder (JObj [("2", JNull)]) "2" ["a"] = Returned "<2>"
  /\ _get_value_for_placeholder (JObj [("2", JStr "Invalid Structure")]) "2" []
     = Returned "<2>"
  /\ _get_value_for_placeholder (JObj [("2", JStr "Invalid Structure")]) "2" ["Invalid"]
     = Raised TypeError
  /\ _get_value_for_placeholder (JObj [("2", JStr "the default")]) "2" []
     = Raised TypeError.
Proof. repeat split. Qed.

(** C3: when the entry of a placeholder is a mapping and some tag of the
    list is one of its keys, the resolver returns the value stored under
    the first such tag (as it is when it is a string, through [str]
    otherwise), whatever later tags match and whether or not there is a
    default. *)
Theorem resolve_first_matching_tag (fields entry : list (string * json))
  (id tag : string) (before after : list string) (value : json) :
  dict_get id fields = Some (JObj entry) ->
  Forall (fun t => dict_get t entry = None) before ->
  dict_get tag entry = Some value ->
  _get_value_for_placeholder (JObj fields) id (before ++ tag :: after)
  = Returned (coerce_to_str value)
  /\ (forall s, value = JStr s ->
      _get_value_for_placeholder (JObj fields) id (before ++ tag :: after) = Returned s).
Proof.
  intros Hid Hmiss Hhit.
  assert (E : _get_value_for_placeholder (JObj fields) id (before ++ tag :: after)
              = Returned (coerce_to_str value)).
  { rewrite (resolve_in_mapping _ _ _ _ Hid), (scan_tags_hit _ _ _ _ _ Hmiss Hhit).
    reflexivity. }
  split; [exact E | intros s ->; exact E].
Qed.

Lemma resolve_first_matching_tag_witness :
  _get_value_for_placeholder
    (JObj [("1", JObj [("default", JStr "John Doe"); ("industry", JStr "J. Doe");
                       ("academic", JStr "Dr. John Doe")])])
    "1" (["unknown"] ++ "academic" :: ["industry"])
  = Returned "Dr. John Doe".
Proof.
  refine (proj1 (resolve_first_matching_tag _
            [("default", JStr "John Doe"); ("industry", JStr "J. Doe");
             ("academic", JStr "Dr. John Doe")]
            "1" "academic" ["unknown"] ["industry"] (JStr "Dr. John Doe") _ _ _)).
  - reflexivity.
  - repeat constructor.
  - reflexivity.
Defined.

(** C4: when the entry of a placeholder is a mapping and no tag of the
    list (possibly empty) is one of its keys, the resolver returns the
    value under the key default when there is one, and the placeholder
    marker otherwise. *)
Theorem resolve_without_matching_tag (fields entry : list (string * json))
  (id : string) (tags : list string) :
  dict_get id fields = Some (JObj entry) ->
  Forall (fun t => dict_get t entry = None) tags ->
  _get_value_for_placeholder (JObj fields) id tags
  = Returned match dict_get "default" entry with
             | Some value => coerce_to_str value
             | None => placeholder_marker id
             end.
Proof.
  intros Hid Hmiss.
  rewrite (resolve_in_mapping _ _ _ _ Hid), (scan_tags_miss _ _ Hmiss). simpl.
  destruct (dict_get "default" entry); reflexivity.
Qed.

Lemma resolve_without_matching_tag_witness :
  _get_value_for_placeholder
    (JObj [("1", JObj [("academic", JStr "Dr. John")]);
           ("2", JObj [("default", JStr "Engineer"); ("academic", JStr "Professor")])])
    "2" ["nonexistent"] = Returned "Engineer"
  /\ _get_value_for_placeholder
       (JObj [("1", JObj [("academic", JStr "Dr. John")]);
              ("2", JObj [("default", JStr "Engineer"); ("academic", JStr "Professor")])])
       "1" [] = Returned "<1>".
Proof.
  split.
  - refine (resolve_without_matching_tag _
              [("default", JStr "Engineer"); ("academic", JStr "Professor")]
              "2" ["nonexistent"] _ _).
    + reflexivity.
    + repeat constructor.
  - refine (resolve_without_matching_tag _ [("academic", JStr "Dr. John")] "1" [] _ _).
    + reflexivity.
    + constructor.
Defined.

(** ** Country classifier *)

Lemma lower_char_idempotent (c : ascii) : lower_char (lower_char c) = lower_char c.
Proof. destruct c as [[] [] [] [] [] [] [] []]; reflexivity. Qed.

Lemma str_lower_idempotent (s : string) : str_lower (str_lower s) = str_lower s.
Proof.
  induction s as [|c s IH]; simpl; [reflexivity|].
  now rewrite lower_char_idempotent, IH.
Qed.

Lemma dict_get_in_values {V : Type} (key : string) (d : list (string * V)) (v : V) :
  dict_get key d = Some v -> In v (map snd d).
Proof.
  induction d as [|[k x] d IH]; simpl; [discriminate|].
  destruct (String.eqb key k); [intros [= ->]; now left | right; auto].
Qed.

Lemma set_mem_true (x : string) (s : list string) : set_mem x s = true <-> In x s.
Proof.
  unfold set_mem. rewrite existsb_exists. split.
  - intros [y [Hy E]]. apply String.eqb_eq in E. now subst.
  - intros H. exists x. split; [exact H | apply String.eqb_refl].
Qed.

(** C7: the classifier is a total function into six tags; it answers the
    specification's examples; a name in neither table is classified
    default; and it sees its argument only through [lower], so two names
    that differ in case only are classified alike. *)
Theorem map_country_to_tag_total_case_insensitive :
  map_country_to_tag "united kingdom" = "uk"
  /\ map_country_to_tag "ENGLAND" = "uk"
  /\ map_country_to_tag "Germany" = "europe"
  /\ map_country_to_tag "Mars" = "default"
  /\ (forall country, In (map_country_to_tag country) classifier_tags)
  /\ (forall country,
        dict_get (str_lower country) direct_mappings = None ->
        set_mem (str_lower country) european_countries = false ->
        map_country_to_tag country = "default")
  /\ (forall country, map_country_to_tag (str_lower country) = map_country_to_tag country)
  /\ (forall a b, str_lower a = str_lower b -> map_country_to_tag a = map_country_to_tag b).
Proof.
  repeat split; try reflexivity.
  - intros country. unfold map_country_to_tag.
    destruct (dict_get (str_lower country) direct_mappings) as [tag|] eqn:E.
    + apply dict_get_in_values in E. simpl in E. unfold classifier_tags.
      repeat (destruct E as [<-|E]; [simpl; tauto|]). destruct E.
    + destruct (set_mem (str_lower country) european_countries); simpl; tauto.
  - intros country H1 H2. unfold map_country_to_tag. now rewrite H1, H2.
  - intros country. unfold map_country_to_tag. now rewrite str_lower_idempotent.
  - intros a b E. unfold map_country_to_tag. now rewrite E.
Qed.

Lemma map_country_to_tag_witness :
  map_country_to_tag "Great Britain" = map_country_to_tag "GREAT BRITAIN".
Proof.
  refine (proj2 (proj2 (proj2 (proj2 (proj2 (proj2 (proj2
            map_country_to_tag_total_case_insensitive)))))) _ _ _).
  reflexivity.
Defined.

(** ** Output path builder *)

Lemma find_app {A : Type} (p : A -> bool) (l1 l2 : list A) :
  find p (l1 ++ l2)%list = match find p l1 with Some x => Some x | None => find p l2 end.
Proof.
  induction l1 as [|a l1 IH]; simpl; [reflexivity|].
  destruct (p a); [reflexivity | exact IH].
Qed.

Lemma last_match_cons (set : list string) (t : string) (tags : list string) :
  last_match set (t :: tags) =
  match last_match set tags with
  | Some x => Some x
  | None => if set_mem t set then Some t else None
  end.
Proof. unfold last_match. simpl. rewrite find_app. reflexivity. Qed.

Lemma country_is_no_position (t : string) :
  set_mem t country_tags = true -> set_mem t position_tags = false.
Proof.
  rewrite set_mem_true. unfold country_tags. simpl.
  intros H. repeat (destruct H as [<-|H]; [reflexivity|]). destruct H.
Qed.

(** The classification loop from any state of its three locals. *)
Lemma classification_loop (tags : list string) (b : buckets) :
  fold_left classify_tag tags b =
  {| country := match last_match country_tags tags with
                | Some t => Some t
                | None => country b
                end;
     position := match last_match position_tags tags with
                 | Some t => Some t
                 | None => position b
                 end;
     other_tags := (other_tags b ++ filter is_other_tag tags)%list |}.
Proof.
  revert b. induction tags as [|t tags IH]; intros b.
  - destruct b. simpl. now rewrite app_nil_r.
  - simpl fold_left. rewrite IH, !last_match_cons.
    change (filter is_other_tag (t :: tags))
      with (if is_other_tag t then t :: filter is_other_tag tags
            else filter is_other_tag tags).
    replace (is_other_tag t)
      with (negb (set_mem t country_tags) && negb (set_mem t position_tags))
      by reflexivity.
    unfold classify_tag.
    destruct (set_mem t country_tags) eqn:Ec.
    + rewrite (country_is_no_position _ Ec). cbn [country position other_tags negb andb].
      destruct (last_match country_tags tags), (last_match position_tags tags); reflexivity.
    + destruct (set_mem t position_tags) eqn:Ep; cbn [country position other_tags negb andb].
      * destruct (last_match country_tags tags), (last_match position_tags tags); reflexivity.
      * rewrite <- app_assoc.
        destruct (last_match country_tags tags), (last_match position_tags tags); reflexivity.
Qed.

Lemma partition_tags_fields (tags : list string) :
  country (partition_tags tags) = last_match country_tags tags
  /\ other_tags (partition_tags tags) = filter is_other_tag tags.
Proof.
  unfold partition_tags. rewrite classification_loop. simpl.
  now destruct (last_match country_tags tags).
Qed.

(** C6 as stated fails: with two country tags, or two position tags, the
    loop keeps the later one, and the earlier one is not among the other
    tags either. *)
Lemma first_country_tag_does_not_win :
  country (partition_tags ["uk"; "usa"; "engineer"; "developer"]) = Some "usa"
  /\ first_match country_tags ["uk"; "usa"; "engineer"; "developer"] = Some "uk"
  /\ position (partition_tags ["uk"; "usa"; "engineer"; "developer"]) = Some "developer"
  /\ first_match position_tags ["uk"; "usa"; "engineer"; "developer"] = Some "engineer"
  /\ other_tags (partition_tags ["uk"; "usa"; "engineer"; "developer"]) = [].
Proof. repeat split. Qed.

(** C6, amended: the country tag the loop selects is the last tag of the
    list that is a country tag, the position tag is the last one that is a
    position tag, and the other tags are the tags that are neither, in
    their original order. *)
Theorem partition_tags_last_match_wins (tags : list string) :
  partition_tags tags =
  {| country := last_match country_tags tags;
     position := last_match position_tags tags;
     other_tags := filter is_other_tag tags |}.
Proof.
  unfold partition_tags. rewrite classification_loop.
  cbn [country position other_tags no_buckets app].
  destruct (last_match country_tags tags), (last_match position_tags tags); reflexivity.
Qed.

Lemma has_char_append (c : ascii) (a b : string) :
  has_char c (a ++ b) = has_char c a || has_char c b.
Proof.
  induction a as [|x a IH]; simpl; [reflexivity|].
  now rewrite IH, orb_assoc.
Qed.

Lemma has_char_concat (c : ascii) (sep : string) (l : list string) :
  has_char c sep = false ->
  Forall (fun t => has_char c t = false) l ->
  has_char c (String.concat sep l) = false.
Proof.
  intros Hsep H. induction H as [|t l Ht Hl IH]; [reflexivity|].
  destruct l as [|u l]; [exact Ht|].
  change (has_char c (t ++ sep ++ String.concat sep (u :: l)) = false).
  now rewrite !has_char_append, Ht, Hsep, IH.
Qed.

Lemma split_on_slash_free (s : string) :
  has_char "/" s = false -> split_on "/" s = [s].
Proof.
  induction s as [|c s IH]; cbn [has_char split_on]; [reflexivity|].
  rewrite Ascii.eqb_sym. destruct (Ascii.eqb c "/"); cbn [orb]; [discriminate|].
  intros H. now rewrite (IH H).
Qed.

Lemma Path_plain (s : string) :
  plain_segment s -> Path s = {| root := EmptyString; parts := [s] |}.
Proof.
  intros (Hslash & Hne & Hdot). unfold Path.
  rewrite (split_on_slash_free _ Hslash). simpl filter.
  assert (R : path_root s = EmptyString).
  { destruct s as [|c s]; [reflexivity|]. cbn [has_char] in Hslash.
    destruct (Ascii.eqb_spec "/" c) as [<-|ne]; [discriminate|].
    unfold path_root.
    destruct c as [[] [] [] [] [] [] [] []]; try reflexivity.
    exfalso. now apply ne. }
  assert (K : is_real_part s = true).
  { unfold is_real_part.
    destruct (String.eqb_spec s EmptyString); [contradiction|].
    destruct (String.eqb_spec s "."); [contradiction | reflexivity]. }
  now rewrite R, K.
Qed.

Lemma substring_whole (s : string) : substring 0 (String.length s) s = s.
Proof. induction s as [|c s IH]; simpl; [reflexivity | now rewrite IH]. Qed.

Lemma substring_cut (i : nat) (s : string) :
  substring 0 i s ++ substring i (String.length s - i) s = s.
Proof.
  revert i. induction s as [|c s IH]; intros [|i]; simpl; try reflexivity.
  - now rewrite substring_whole.
  - f_equal. apply IH.
Qed.

(** The file name is put back together from its stem and its suffix. *)
Lemma stem_suffix (p : pure_path) : path_stem p ++ path_suffix p = path_name p.
Proof.
  unfold path_stem, path_suffix.
  destruct (suffix_index (path_name p)) as [i|].
  - apply substring_cut.
  - apply append_nil_r.
Qed.

Lemma folder_name_plain (others : list string) :
  Forall (fun t => has_char "/" t = false) others ->
  plain_segment (folder_name_of others).
Proof.
  intros H. unfold folder_name_of. destruct others as [|t l].
  - repeat split; discriminate.
  - repeat split; try discriminate.
    rewrite has_char_append, (has_char_concat "/" "_" _ eq_refl H). reflexivity.
Qed.


Lemma joinpath_plain (p : pure_path) (s : string) :
  plain_segment s ->
  joinpath p s = {| root := root p; parts := (parts p ++ [s])%list |}.
Proof. intros H. unfold joinpath. now rewrite (Path_plain _ H). Qed.



(** ** Template substitution engine *)

Lemma append_eq_append (a b c d : string) :
  a ++ b = c ++ d ->
  (exists m, a = c ++ m /\ d = m ++ b) \/ (exists m, c = a ++ m /\ b = m ++ d).
Proof.
  revert c. induction a as [|x a IH]; intros c H.
  - right. exists c. now split.
  - destruct c as [|y c].
    + left. exists (String x a). now split.
    + simpl in H. injection H as -> H.
      destruct (IH _ H) as [[m [-> ->]]|[m [-> ->]]]; [left | right]; exists m; now split.
Qed.

Lemma occurs_app_l (p a b : string) : occurs p a -> occurs p (a ++ b).
Proof.
  intros [x [y ->]]. exists x, (y ++ b). now rewrite !append_assoc.
Qed.

Lemma occurs_app_r (p a b : string) : occurs p b -> occurs p (a ++ b).
Proof.
  intros [x [y ->]]. exists (a ++ x), y. now rewrite !append_assoc.
Qed.

Lemma occurs_here (p b : string) : occurs p (p ++ b).
Proof. now exists EmptyString, b. Qed.

Lemma all_ident_no_char (c : ascii) (id : string) :
  is_ident_char c = false -> all_ident id = true -> has_char c id = false.
Proof.
  intros Hc. induction id as [|d id IH]; cbn [all_ident has_char]; [reflexivity|].
  intros H. apply andb_prop in H. destruct H as [Hd Hid].
  rewrite (IH Hid), orb_false_r.
  destruct (Ascii.eqb_spec c d) as [<-|]; [congruence | reflexivity].
Qed.

(** The only opening bracket of a marker is its first character. *)
Lemma marker_tail_no_open (id : string) :
  all_ident id = true -> has_char "<" (id ++ ">") = false.
Proof.
  intros H. rewrite has_char_append, (all_ident_no_char "<" id eq_refl H). reflexivity.
Qed.

Lemma has_char_split (c : ascii) (x y : string) :
  has_char c (x ++ String c y) = true.
Proof.
  rewrite has_char_append. cbn [has_char]. rewrite Ascii.eqb_refl.
  apply orb_true_r.
Qed.

Lemma marker_open_at_head (id x y : string) :
  all_ident id = true -> placeholder_marker id = x ++ String "<" y -> x = EmptyString.
Proof.
  intros Hid H. destruct x as [|c x]; [reflexivity|].
  unfold placeholder_marker in H. simpl in H. injection H as _ H.
  pose proof (marker_tail_no_open id Hid) as K.
  rewrite H, has_char_split in K. discriminate.
Qed.

(** Text up to the first closing bracket is determined. *)
Lemma cut_at_char (c : ascii) (x y u v : string) :
  has_char c x = false -> has_char c u = false ->
  x ++ String c y = u ++ String c v -> x = u /\ y = v.
Proof.
  revert u. induction x as [|a x IH]; intros [|b u] Hx Hu H; simpl in H.
  - injection H as ->. now split.
  - injection H as <- _. cbn [has_char] in Hu. rewrite Ascii.eqb_refl in Hu. discriminate.
  - injection H as -> _. cbn [has_char] in Hx. rewrite Ascii.eqb_refl in Hx. discriminate.
  - injection H as -> H. cbn [has_char] in Hx, Hu.
    apply orb_false_elim in Hx, Hu.
    destruct (IH u (proj2 Hx) (proj2 Hu) H) as [-> ->]. now split.
Qed.

Lemma marker_prefix_inj (i j b r : string) :
  all_ident i = true -> all_ident j = true ->
  placeholder_marker i ++ b = placeholder_marker j ++ r -> i = j /\ b = r.
Proof.
  intros Hi Hj H. unfold placeholder_marker in H. simpl in H.
  injection H as H. rewrite !append_assoc in H. simpl in H.
  apply cut_at_char in H; [exact H | |]; now apply all_ident_no_char.
Qed.

(** *** The placeholder pattern at the head of a text *)

Lemma take_ident_spec (s : string) :
  s = fst (take_ident s) ++ snd (take_ident s)
  /\ all_ident (fst (take_ident s)) = true
  /\ match snd (take_ident s) with
     | EmptyString => True
     | String c _ => is_ident_char c = false
     end.
Proof.
  induction s as [|c s (IH1 & IH2 & IH3)]; cbn [take_ident]; [now repeat split|].
  destruct (is_ident_char c) eqn:E.
  - destruct (take_ident s) as [id tail]. cbn [fst snd all_ident append] in *.
    rewrite E, IH2. repeat split; [now rewrite <- IH1 | exact IH3].
  - cbn [fst snd all_ident]. now repeat split.
Qed.

Lemma take_ident_app (id tail : string) :
  all_ident id = true ->
  match tail with EmptyString => True | String c _ => is_ident_char c = false end ->
  take_ident (id ++ tail) = (id, tail).
Proof.
  intros Hid Htail. induction id as [|c id IH]; cbn [append take_ident].
  - destruct tail as [|c tail]; [reflexivity|]. cbn [take_ident]. now rewrite Htail.
  - cbn [all_ident] in Hid. apply andb_prop in Hid. destruct Hid as [Hc Hid].
    now rewrite Hc, (IH Hid).
Qed.

Lemma match_placeholder_some (s id rest : string) :
  match_placeholder s = Some (id, rest) <->
  valid_ident id /\ s = placeholder_marker id ++ rest.
Proof.
  split.
  - unfold match_placeholder. destruct s as [|c after]; [discriminate|].
    destruct (Ascii.eqb_spec c "<") as [->|ne].
    + destruct (take_ident_spec after) as (E & Hid & _).
      destruct (take_ident after) as [[|d id'] [|e tail]]; try discriminate.
      cbn [fst snd] in *.
      destruct (Ascii.eqb_spec e ">") as [->|ne].
      * intros [= <- <-]. split; [split; [discriminate | exact Hid]|].
        unfold placeholder_marker. rewrite E. simpl. now rewrite append_assoc.
      * intros H. exfalso. apply ne.
        destruct e as [[] [] [] [] [] [] [] []]; try discriminate H. reflexivity.
    + intros H. exfalso. apply ne.
      destruct c as [[] [] [] [] [] [] [] []]; try discriminate H. reflexivity.
  - intros [[Hne Hid] ->]. unfold placeholder_marker, match_placeholder.
    simpl. rewrite append_assoc. simpl.
    rewrite (take_ident_app id (String ">" rest) Hid eq_refl).
    destruct id; [contradiction | reflexivity].
Qed.

Lemma match_placeholder_needs_open (c : ascii) (s : string) :
  c <> "<"%char -> match_placeholder (String c s) = None.
Proof.
  intros ne. unfold match_placeholder.
  destruct c as [[] [] [] [] [] [] [] []]; try reflexivity. now elim ne.
Qed.

Lemma marker_app (id rest : string) :
  placeholder_marker id ++ rest = String "<" (id ++ String ">" rest).
Proof. unfold placeholder_marker. simpl. now rewrite append_assoc. Qed.

Lemma marker_not_empty (id : string) : placeholder_marker id <> EmptyString.
Proof. discriminate. Qed.

Lemma prefix_false (p s : string) :
  prefix p s = false <-> ~ exists r, s = p ++ r.
Proof.
  rewrite <- prefix_true. destruct (prefix p s); split; intros H; congruence.
Qed.

Lemma prefix_marker_needs_open (id : string) (c : ascii) (s : string) :
  c <> "<"%char -> prefix (placeholder_marker id) (String c s) = false.
Proof.
  intros ne. apply prefix_false. intros [r H]. rewrite marker_app in H.
  injection H as H _. contradiction.
Qed.

Lemma no_open_head (c : ascii) (y : string) :
  has_char "<" (String c y) = false -> c <> "<"%char /\ has_char "<" y = false.
Proof.
  cbn [has_char]. intros H. apply orb_false_elim in H. destruct H as [H1 H2].
  split; [|exact H2]. intros ->. discriminate.
Qed.

(** *** One step of each scan

    The scans below are stated for the texts they are run on: a literal
    [old] that is not empty, and the placeholder pattern. *)

Lemma findall_from_skip (p rest : string) (n : nat) :
  findall_from (String.length p + n) (p ++ rest) = findall_from n rest.
Proof. induction p as [|c p IH]; [reflexivity | exact IH]. Qed.

Lemma one_pass_from_skip (value_of : string -> string) (p rest : string) (n : nat) :
  one_pass_from (String.length p + n) value_of (p ++ rest) = one_pass_from n value_of rest.
Proof. induction p as [|c p IH]; [reflexivity | exact IH]. Qed.

Lemma replace_from_skip (old new p rest : string) (n : nat) :
  replace_from (String.length p + n) old new (p ++ rest) = replace_from n old new rest.
Proof. induction p as [|c p IH]; [reflexivity | exact IH]. Qed.

Lemma count_from_skip (old p rest : string) (n : nat) :
  count_from (String.length p + n) old (p ++ rest) = count_from n old rest.
Proof. induction p as [|c p IH]; [reflexivity | exact IH]. Qed.

Lemma findall_match (id rest : string) :
  valid_ident id ->
  findall_placeholders (placeholder_marker id ++ rest) = id :: findall_placeholders rest.
Proof.
  intros Hid.
  assert (E : match_placeholder (placeholder_marker id ++ rest) = Some (id, rest))
    by now apply match_placeholder_some.
  unfold findall_placeholders. rewrite marker_app in *. cbn [findall_from]. rewrite E.
  f_equal. rewrite <- Nat.add_1_r. now rewrite findall_from_skip.
Qed.

Lemma findall_no_match (c : ascii) (s : string) :
  match_placeholder (String c s) = None ->
  findall_placeholders (String c s) = findall_placeholders s.
Proof. intros E. unfold findall_placeholders. cbn [findall_from]. now rewrite E. Qed.

Lemma one_pass_match (value_of : string -> string) (id rest : string) :
  valid_ident id ->
  substitute_one_pass value_of (placeholder_marker id ++ rest)
  = value_of id ++ substitute_one_pass value_of rest.
Proof.
  intros Hid.
  assert (E : match_placeholder (placeholder_marker id ++ rest) = Some (id, rest))
    by now apply match_placeholder_some.
  unfold substitute_one_pass. rewrite marker_app in *. cbn [one_pass_from]. rewrite E.
  f_equal. rewrite <- Nat.add_1_r. now rewrite one_pass_from_skip.
Qed.

Lemma one_pass_no_match (value_of : string -> string) (c : ascii) (s : string) :
  match_placeholder (String c s) = None ->
  substitute_one_pass value_of (String c s) = String c (substitute_one_pass value_of s).
Proof. intros E. unfold substitute_one_pass. cbn [one_pass_from]. now rewrite E. Qed.

Lemma str_replace_match (old new rest : string) :
  old <> EmptyString ->
  str_replace old new (old ++ rest) = new ++ str_replace old new rest.
Proof.
  intros Hne. destruct old as [|c old]; [contradiction|].
  assert (E : prefix (String c old) (String c old ++ rest) = true)
    by (apply prefix_true; now exists rest).
  unfold str_replace. cbn [append replace_from] in *. rewrite E.
  f_equal. cbn [String.length]. rewrite Nat.sub_succ, Nat.sub_0_r.
  rewrite <- (Nat.add_0_r (String.length old)). now rewrite replace_from_skip.
Qed.

Lemma str_replace_no_match (old new : string) (c : ascii) (s : string) :
  old <> EmptyString -> prefix old (String c s) = false ->
  str_replace old new (String c s) = String c (str_replace old new s).
Proof.
  intros Hne E. destruct old as [|d old]; [contradiction|].
  unfold str_replace. cbn [replace_from]. now rewrite E.
Qed.

Lemma str_replace_empty (old new : string) :
  old <> EmptyString -> str_replace old new EmptyString = EmptyString.
Proof. destruct old; [contradiction | reflexivity]. Qed.

Lemma count_match (old rest : string) :
  old <> EmptyString ->
  count_occurrences old (old ++ rest) = S (count_occurrences old rest).
Proof.
  intros Hne. destruct old as [|c old]; [contradiction|].
  assert (E : prefix (String c old) (String c old ++ rest) = true)
    by (apply prefix_true; now exists rest).
  unfold count_occurrences. cbn [append count_from] in *. rewrite E.
  f_equal. cbn [String.length]. rewrite Nat.sub_succ, Nat.sub_0_r.
  rewrite <- (Nat.add_0_r (String.length old)). now rewrite count_from_skip.
Qed.

Lemma count_no_match (old : string) (c : ascii) (s : string) :
  old <> EmptyString -> prefix old (String c s) = false ->
  count_occurrences old (String c s) = count_occurrences old s.
Proof.
  intros Hne E. destruct old as [|d old]; [contradiction|].
  unfold count_occurrences. cbn [count_from]. now rewrite E.
Qed.

Lemma count_empty (old : string) :
  old <> EmptyString -> count_occurrences old EmptyString = 0.
Proof. destruct old; [contradiction | reflexivity]. Qed.

(** *** Induction along a scan *)

Lemma string_length_ind (Q : string -> Prop) :
  (forall s, (forall t, String.length t < String.length s -> Q t) -> Q s) ->
  forall s, Q s.
Proof.
  intros step s. remember (String.length s) as n eqn:E.
  revert s E. induction n as [n IH] using lt_wf_ind. intros s ->.
  apply step. intros t Ht. now apply (IH _ Ht).
Qed.

(** Along the matches of the placeholder pattern. *)
Lemma placeholder_scan_ind (Q : string -> Prop) :
  Q EmptyString ->
  (forall c s, match_placeholder (String c s) = None -> Q s -> Q (String c s)) ->
  (forall id rest, valid_ident id -> Q rest -> Q (placeholder_marker id ++ rest)) ->
  forall s, Q s.
Proof.
  intros Hnil Hchar Hmatch. induction s as [s IH] using string_length_ind.
  destruct s as [|c s]; [exact Hnil|].
  destruct (match_placeholder (String c s)) as [[id rest]|] eqn:E.
  - apply match_placeholder_some in E. destruct E as [Hid E]. rewrite E.
    apply Hmatch; [exact Hid|]. apply IH. rewrite E, marker_app. simpl.
    rewrite length_append. simpl. lia.
  - apply Hchar; [exact E|]. apply IH. simpl. lia.
Qed.

(** Along the occurrences of a literal. *)
Lemma literal_scan_ind (old : string) (Hne : old <> EmptyString)
  (Q : string -> Prop) :
  Q EmptyString ->
  (forall c s, prefix old (String c s) = false -> Q s -> Q (String c s)) ->
  (forall rest, Q rest -> Q (old ++ rest)) ->
  forall s, Q s.
Proof.
  intros Hnil Hchar Hmatch. induction s as [s IH] using string_length_ind.
  destruct s as [|c s]; [exact Hnil|].
  destruct (prefix old (String c s)) eqn:E.
  - apply prefix_true in E. destruct E as [rest E]. rewrite E.
    apply Hmatch. apply IH. rewrite E.
    destruct old as [|d old]; [contradiction|].
    simpl. rewrite length_append. lia.
  - apply Hchar; [exact E|]. apply IH. simpl. lia.
Qed.

(** *** Texts without placeholders *)

Lemma findall_valid (text id : string) :
  In id (findall_placeholders text) -> valid_ident id.
Proof.
  induction text as [|c s Hc IH|j rest Hj IH] using placeholder_scan_ind.
  - intros [].
  - rewrite (findall_no_match _ _ Hc). exact IH.
  - rewrite (findall_match _ _ Hj). intros [<-|H]; [exact Hj | now apply IH].
Qed.

Lemma findall_of_occurrence (a id b : string) :
  valid_ident id -> findall_placeholders (a ++ placeholder_marker id ++ b) <> [].
Proof.
  intros Hid. induction a as [|c a IH].
  - change (findall_placeholders (placeholder_marker id ++ b) <> []).
    rewrite (findall_match _ _ Hid). discriminate.
  - change (findall_placeholders (String c (a ++ placeholder_marker id ++ b)) <> []).
    destruct (match_placeholder (String c (a ++ placeholder_marker id ++ b)))
      as [[j rest]|] eqn:E.
    + apply match_placeholder_some in E. destruct E as [Hj E].
      rewrite E, (findall_match _ _ Hj). discriminate.
    + now rewrite (findall_no_match _ _ E).
Qed.

(** The test [if not placeholders] is the test that no span of the text
    matches the placeholder grammar. *)
Lemma findall_nil_iff (text : string) :
  findall_placeholders text = [] <->
  forall id, valid_ident id -> ~ occurs (placeholder_marker id) text.
Proof.
  split.
  - intros E id Hid [a [b ->]]. now apply (findall_of_occurrence a id b Hid).
  - induction text as [|c s Hc IH|j rest Hj IH] using placeholder_scan_ind; intros H.
    + reflexivity.
    + rewrite (findall_no_match _ _ Hc). apply IH. intros id Hid Hocc.
      apply (H id Hid). now apply (occurs_app_r _ (String c EmptyString)) in Hocc.
    + exfalso. apply (H j Hj). apply occurs_here.
Qed.

(** C8: a text in which no span matches the placeholder grammar comes
    out unchanged, with zero substitutions and nothing resolved, and the
    run returns normally whatever the configuration and the tags. *)
Theorem substitute_file_without_placeholders
  (iterate : set_order) (config : json) (text : string) (tags : list string) :
  (forall id, valid_ident id -> ~ occurs (placeholder_marker id) text) ->
  substitute_file iterate config text tags
  = Returned {| content := text; substitution_count := 0; resolved := [] |}.
Proof.
  intros H. apply findall_nil_iff in H. unfold substitute_file. now rewrite H.
Qed.

Lemma substitute_file_without_placeholders_witness :
  substitute_file in_order (JObj [("1", JInt 42)])
    "\section{Skills} a < b, <>, <foo bar>, <a-b" ["usa"; "engineer"]
  = Returned {| content := "\section{Skills} a < b, <>, <foo bar>, <a-b";
                substitution_count := 0; resolved := [] |}.
Proof.
  apply substitute_file_without_placeholders.
  apply findall_nil_iff. vm_compute. reflexivity.
Defined.

(** *** Replacing the marker of one identifier *)

Lemma str_replace_absent (old new s : string) :
  old <> EmptyString -> ~ occurs old s ->
  str_replace old new s = s /\ count_occurrences old s = 0.
Proof.
  intros Hne. induction s as [|c s IH]; intros H.
  - now rewrite str_replace_empty, count_empty.
  - assert (E : prefix old (String c s) = false).
    { apply prefix_false. intros [r Hr]. apply H. rewrite Hr. apply occurs_here. }
    rewrite (str_replace_no_match _ _ _ _ Hne E), (count_no_match _ _ _ Hne E).
    destruct IH as [-> ->]; [|now split].
    intros Hocc. apply H. now apply (occurs_app_r _ (String c EmptyString)) in Hocc.
Qed.

Lemma marker_replace_step (i v pre rest : string) :
  all_ident i = true -> ~ occurs (placeholder_marker i) pre ->
  str_replace (placeholder_marker i) v (pre ++ placeholder_marker i ++ rest)
  = pre ++ v ++ str_replace (placeholder_marker i) v rest
  /\ count_occurrences (placeholder_marker i) (pre ++ placeholder_marker i ++ rest)
     = S (count_occurrences (placeholder_marker i) rest).
Proof.
  intros Hi. induction pre as [|c pre IH]; intros H.
  - cbn [append].
    now rewrite (str_replace_match _ _ _ (marker_not_empty i)),
                (count_match _ _ (marker_not_empty i)).
  - cbn [append].
    assert (E : prefix (placeholder_marker i)
                  (String c (pre ++ placeholder_marker i ++ rest)) = false).
    { apply prefix_false. intros [r Hr].
      change (String c pre ++ (placeholder_marker i ++ rest) = placeholder_marker i ++ r)
        in Hr.
      apply append_eq_append in Hr. destruct Hr as [[m [Hm _]]|[m [Hm Hr]]].
      - apply H. rewrite Hm. apply occurs_here.
      - destruct m as [|d m].
        + apply H. rewrite append_nil_r in Hm. rewrite <- Hm.
          exists EmptyString, EmptyString. now rewrite append_nil_r.
        + rewrite marker_app in Hr. injection Hr as <- _.
          now apply marker_open_at_head in Hm. }
    rewrite (str_replace_no_match _ _ _ _ (marker_not_empty i) E),
            (count_no_match _ _ _ (marker_not_empty i) E).
    destruct IH as [-> ->]; [|now split].
    intros Hocc. apply H. now apply (occurs_app_r _ (String c EmptyString)) in Hocc.
Qed.

(** A stretch without an opening bracket is copied and counts nothing. *)
Lemma marker_replace_skip (i v y b : string) :
  has_char "<" y = false ->
  str_replace (placeholder_marker i) v (y ++ b)
  = y ++ str_replace (placeholder_marker i) v b
  /\ count_occurrences (placeholder_marker i) (y ++ b)
     = count_occurrences (placeholder_marker i) b.
Proof.
  induction y as [|c y IH]; intros H; [now split|].
  apply no_open_head in H. destruct H as [ne H]. cbn [append].
  pose proof (prefix_marker_needs_open i c (y ++ b) ne) as E.
  rewrite (str_replace_no_match _ _ _ _ (marker_not_empty i) E),
          (count_no_match _ _ _ (marker_not_empty i) E).
  destruct (IH H) as [-> ->]. now split.
Qed.

(** An occurrence of one marker cannot straddle the marker of another
    identifier. *)
Lemma occurs_across_marker (i j pre rest : string) :
  all_ident i = true -> all_ident j = true -> i <> j ->
  occurs (placeholder_marker i) (pre ++ placeholder_marker j ++ rest) ->
  occurs (placeholder_marker i) pre \/ occurs (placeholder_marker i) rest.
Proof.
  intros Hi Hj ne [a [b H]].
  apply append_eq_append in H. destruct H as [[m [Hm H]]|[m [Hm H]]].
  - (* the occurrence starts inside [pre] *)
    apply append_eq_append in H. destruct H as [[n [Hn H]]|[n [Hn H]]].
    + destruct n as [|d n].
      * left. rewrite append_nil_r in Hn. rewrite Hm, <- Hn.
        exists a, EmptyString. now rewrite append_nil_r.
      * pose proof H as H'. rewrite marker_app in H'. injection H' as <- _.
        pose proof (marker_open_at_head _ _ _ Hi Hn) as ->.
        cbn [append] in Hn. rewrite <- Hn in H.
        apply marker_prefix_inj in H; [|assumption..]. destruct H as [<- _].
        now elim ne.
    + left. rewrite Hm, Hn. now exists a, n.
  - (* the occurrence starts at or after the marker of [j] *)
    apply append_eq_append in H. destruct H as [[n [Hn H]]|[n [Hn H]]].
    + destruct n as [|d n].
      * right. cbn [append] in H. rewrite <- H. apply occurs_here.
      * pose proof H as H'. rewrite marker_app in H'. injection H' as <- _.
        pose proof (marker_open_at_head _ _ _ Hj Hn) as ->.
        cbn [append] in Hn. rewrite <- Hn in H.
        apply marker_prefix_inj in H; [|assumption..]. destruct H as [-> _].
        now elim ne.
    + right. rewrite H. now exists n, b.
Qed.

(** *** One iteration of the loop, seen on the one-pass reference

    [g] is the state of the text before the identifier [i] is processed
    (its spans still show its marker), [g'] the state after it. *)

Lemma append_char (pre : string) (c : ascii) (x : string) :
  pre ++ String c x = (pre ++ String c EmptyString) ++ x.
Proof. now rewrite append_assoc. Qed.

Lemma replace_stage (i v : string) (g g' blanked : string -> string) :
  valid_ident i -> g i = placeholder_marker i -> g' i = v ->
  (forall j, j <> i -> g' j = g j) ->
  blanked i = " " -> (forall j, j <> i -> blanked j = g j) ->
  forall text pre,
    ~ occurs (placeholder_marker i) (pre ++ substitute_one_pass blanked text) ->
    str_replace (placeholder_marker i) v (pre ++ substitute_one_pass g text)
    = pre ++ substitute_one_pass g' text
    /\ count_occurrences (placeholder_marker i) (pre ++ substitute_one_pass g text)
       = count_occ string_dec (findall_placeholders text) i.
Proof.
  intros [_ Hi] Hg Hg' Hsame Hblank Hrest.
  induction text as [|c s Hc IH|j rest Hj IH] using placeholder_scan_ind; intros pre H.
  - change (substitute_one_pass g EmptyString) with EmptyString.
    change (substitute_one_pass g' EmptyString) with EmptyString.
    change (substitute_one_pass blanked EmptyString) with EmptyString in H.
    rewrite append_nil_r in *.
    now apply str_replace_absent; [apply marker_not_empty|].
  - rewrite (one_pass_no_match blanked _ _ Hc) in H.
    rewrite (one_pass_no_match g _ _ Hc), (one_pass_no_match g' _ _ Hc).
    rewrite (findall_no_match _ _ Hc).
    rewrite append_char in H. rewrite (append_char pre c).
    rewrite (append_char pre c (substitute_one_pass g' s)).
    now apply IH.
  - rewrite (one_pass_match blanked _ _ Hj) in H.
    rewrite (one_pass_match g _ _ Hj), (one_pass_match g' _ _ Hj).
    rewrite (findall_match _ _ Hj).
    destruct (string_dec j i) as [->|ne].
    + rewrite Hg, Hg'. rewrite Hblank in H.
      destruct (marker_replace_step i v pre (substitute_one_pass g rest) Hi) as [E1 E2].
      { intros Hocc. apply H. now apply occurs_app_l. }
      rewrite E1, E2. rewrite count_occ_cons_eq by reflexivity.
      destruct (IH EmptyString) as [E3 E4].
      { intros Hocc. apply H. now apply occurs_app_r, occurs_app_r. }
      cbn [append] in E3, E4. now rewrite E3, E4.
    + rewrite (Hsame j ne). rewrite (Hrest j ne) in H.
      rewrite count_occ_cons_neq by exact ne.
      rewrite <- !append_assoc in *. now apply IH.
Qed.

(** An occurrence of the marker of [i] that is there while other spans
    still show their markers is still there once they are filled in. *)
Lemma occurs_persists (i : string) (g h : string -> string) :
  all_ident i = true ->
  (forall j, valid_ident j -> g j = h j \/ (g j = placeholder_marker j /\ j <> i)) ->
  forall text pre,
    occurs (placeholder_marker i) (pre ++ substitute_one_pass g text) ->
    occurs (placeholder_marker i) (pre ++ substitute_one_pass h text).
Proof.
  intros Hi Hgh.
  induction text as [|c s Hc IH|j rest Hj IH] using placeholder_scan_ind; intros pre H.
  - exact H.
  - rewrite (one_pass_no_match g _ _ Hc) in H. rewrite (one_pass_no_match h _ _ Hc).
    rewrite append_char in H. rewrite append_char. now apply IH.
  - rewrite (one_pass_match g _ _ Hj) in H. rewrite (one_pass_match h _ _ Hj).
    destruct (Hgh j Hj) as [E|[E ne]].
    + rewrite E in H. rewrite <- append_assoc in *. now apply IH.
    + rewrite E in H.
      apply occurs_across_marker in H; [|exact Hi|exact (proj2 Hj)|congruence].
      destruct H as [H|H]; [now apply occurs_app_l|].
      apply occurs_app_r, occurs_app_r. now apply (IH EmptyString).
Qed.

Lemma one_pass_marker (text : string) :
  substitute_one_pass placeholder_marker text = text.
Proof.
  induction text as [|c s Hc IH|j rest Hj IH] using placeholder_scan_ind.
  - reflexivity.
  - now rewrite (one_pass_no_match _ _ _ Hc), IH.
  - now rewrite (one_pass_match _ _ _ Hj), IH.
Qed.

Lemma one_pass_ext (g h : string -> string) (text : string) :
  (forall id, In id (findall_placeholders text) -> g id = h id) ->
  substitute_one_pass g text = substitute_one_pass h text.
Proof.
  induction text as [|c s Hc IH|j rest Hj IH] using placeholder_scan_ind; intros H.
  - reflexivity.
  - rewrite !(one_pass_no_match _ _ _ Hc). rewrite (findall_no_match _ _ Hc) in H.
    now rewrite IH.
  - rewrite !(one_pass_match _ _ _ Hj). rewrite (findall_match _ _ Hj) in H.
    rewrite (H j (or_introl eq_refl)), IH; [reflexivity|].
    intros id Hid. apply H. now right.
Qed.

(** In the template itself the literal occurrences of a marker are the
    spans of its identifier. *)
Lemma count_in_template (i text : string) :
  valid_ident i ->
  count_occurrences (placeholder_marker i) text
  = count_occ string_dec (findall_placeholders text) i.
Proof.
  intros Hi.
  induction text as [|c s Hc IH|j rest Hj IH] using placeholder_scan_ind.
  - reflexivity.
  - rewrite (findall_no_match _ _ Hc), <- IH.
    apply count_no_match; [apply marker_not_empty|].
    apply prefix_false. intros [r Hr].
    assert (E : match_placeholder (String c s) = Some (i, r))
      by now apply match_placeholder_some.
    congruence.
  - rewrite (findall_match _ _ Hj). destruct (string_dec j i) as [->|ne].
    + rewrite count_occ_cons_eq by reflexivity.
      now rewrite (count_match _ _ (marker_not_empty i)), IH.
    + rewrite count_occ_cons_neq by exact ne. rewrite <- IH.
      rewrite marker_app.
      assert (E : prefix (placeholder_marker i) (String "<" (j ++ String ">" rest)) = false).
      { apply prefix_false. intros [r Hr]. rewrite <- marker_app in Hr.
        symmetry in Hr. apply marker_prefix_inj in Hr; [|apply Hi|apply Hj].
        destruct Hr as [-> _]. now elim ne. }
      rewrite (count_no_match _ _ _ (marker_not_empty i) E).
      change (j ++ String ">" rest) with (j ++ String ">" EmptyString ++ rest).
      rewrite <- append_assoc.
      now apply marker_replace_skip, marker_tail_no_open, Hj.
Qed.

(** *** The loop on the one-pass reference *)

Lemma iterate_nil (iterate : set_order) :
  is_set_iteration iterate -> iterate [] = [].
Proof.
  intros H. destruct (H []) as [_ Hin].
  destruct (iterate []) as [|x l]; [reflexivity|].
  destruct (proj1 (Hin x) (or_introl eq_refl)).
Qed.

Lemma count_occ_string_cons (x i : string) (l : list string) :
  count_occ string_dec (x :: l) i
  = (if string_dec x i then 1 else 0) + count_occ string_dec l i.
Proof. simpl. destruct (string_dec x i); reflexivity. Qed.

Lemma sum_of_one_hit (x : string) (ids : list string) :
  NoDup ids -> In x ids ->
  list_sum (map (fun i => if string_dec x i then 1 else 0) ids) = 1.
Proof.
  induction 1 as [|i ids Hni Hnd IH]; intros Hin; [destruct Hin|].
  cbn [map list_sum]. destruct (string_dec x i) as [->|ne].
  - f_equal. clear IH Hin. induction ids as [|j ids IHj]; [reflexivity|].
    cbn [map list_sum]. destruct (string_dec i j) as [->|_].
    + elim Hni. now left.
    + apply IHj; [intros Hi; apply Hni; now right | now inversion Hnd].
  - destruct Hin as [->|Hin]; [now elim ne | now apply IH].
Qed.

Lemma list_sum_map_add {A : Type} (f g : A -> nat) (l : list A) :
  list_sum (map (fun x => f x + g x) l) = list_sum (map f l) + list_sum (map g l).
Proof.
  unfold list_sum. induction l as [|a l IH]; simpl; [reflexivity | rewrite IH; lia].
Qed.

(** Every span belongs to exactly one distinct identifier. *)
Lemma spans_counted (ids l : list string) :
  NoDup ids -> (forall x, In x l -> In x ids) ->
  list_sum (map (count_occ string_dec l) ids) = List.length l.
Proof.
  intros Hnd. induction l as [|x l IH]; intros Hin.
  - clear. induction ids as [|i ids IH]; [reflexivity | exact IH].
  - rewrite (map_ext _ _ (fun i => count_occ_string_cons x i l)).
    rewrite list_sum_map_add, sum_of_one_hit; [|exact Hnd|apply Hin; now left].
    cbn [List.length Nat.add]. f_equal. apply IH. intros y Hy. apply Hin. now right.
Qed.

Lemma str_contains_occurs (p s : string) : str_contains p s = true <-> occurs p s.
Proof.
  split.
  - induction s as [|c s IH]; cbn [str_contains]; intros H.
    + rewrite orb_false_r in H. apply prefix_true in H. destruct H as [r ->].
      apply occurs_here.
    + apply orb_prop in H. destruct H as [H|H].
      * apply prefix_true in H. destruct H as [r ->]. apply occurs_here.
      * now apply (occurs_app_r _ (String c EmptyString)), IH.
  - intros [a [b ->]]. induction a as [|c a IH].
    + assert (E : prefix p (p ++ b) = true) by (apply prefix_true; now exists b).
      cbn [append]. destruct (p ++ b); cbn [str_contains]; now rewrite E.
    + cbn [append str_contains]. rewrite IH. apply orb_true_r.
Qed.

Lemma not_occurs (p s : string) : str_contains p s = false -> ~ occurs p s.
Proof. intros E H. apply str_contains_occurs in H. congruence. Qed.

Section OnePass.

Variable iterate : set_order.
Variable config : json.
Variable tags : list string.
Variable text : string.

(** The value the resolver returns for each identifier of the template. *)
Variable value_of : string -> string.

Hypothesis iterate_is_set : is_set_iteration iterate.

Hypothesis resolver_returns :
  forall id, In id (findall_placeholders text) ->
    _get_value_for_placeholder config id tags = Returned (value_of id).

(** No marker of an identifier of the template arises outside the
    spans of that identifier when the other spans are filled in. *)
Hypothesis no_new_marker :
  forall id, In id (findall_placeholders text) ->
    ~ occurs (placeholder_marker id)
        (substitute_one_pass (elsewhere value_of id) text).

Lemma loop_on_stages (todo : list string) :
  forall (done : list string) (n : nat) (r : list (string * string)),
    NoDup (done ++ todo) ->
    (forall id, In id todo -> In id (findall_placeholders text)) ->
    substitute_loop config tags todo
      {| content := substitute_one_pass (stage value_of done) text;
         substitution_count := n; resolved := r |}
    = Returned
        {| content := substitute_one_pass (stage value_of (done ++ todo)) text;
           substitution_count :=
             n + list_sum (map (count_occ string_dec (findall_placeholders text)) todo);
           resolved := (r ++ map (fun id => (id, value_of id)) todo)%list |}.
Proof.
  induction todo as [|i todo IH]; intros done n r Hnd Hin.
  - cbn [substitute_loop map list_sum]. now rewrite !app_nil_r, Nat.add_0_r.
  - assert (Hi : In i (findall_placeholders text)) by (apply Hin; now left).
    pose proof (findall_valid _ _ Hi) as Hvalid.
    assert (Hfresh : ~ In i done).
    { apply NoDup_remove_2 in Hnd. intros H. apply Hnd, in_or_app. now left. }
    cbn [substitute_loop]. rewrite (resolver_returns i Hi).
    cbn [bind content substitution_count resolved].
    destruct (replace_stage i (value_of i)
                (stage value_of done) (stage value_of (done ++ [i]))
                (elsewhere (stage value_of done) i) Hvalid)
      with (text := text) (pre := EmptyString) as [E1 E2].
    + unfold stage. now destruct (in_dec string_dec i done).
    + unfold stage. destruct (in_dec string_dec i (done ++ [i])) as [_|H];
        [reflexivity | elim H; apply in_or_app; right; now left].
    + intros j ne. unfold stage.
      destruct (in_dec string_dec j (done ++ [i])) as [H|H],
               (in_dec string_dec j done) as [K|K]; try reflexivity.
      * apply in_app_or in H. destruct H as [H|[H|[]]]; [contradiction | now elim ne].
      * elim H. apply in_or_app. now left.
    + unfold elsewhere. now destruct (string_dec i i).
    + intros j ne. unfold elsewhere. now destruct (string_dec j i).
    + cbn [append]. intros Hocc.
      apply (no_new_marker i Hi).
      apply (occurs_persists i (elsewhere (stage value_of done) i)
               (elsewhere value_of i) (proj2 Hvalid))
        with (pre := EmptyString); [|exact Hocc].
      intros j _. unfold elsewhere, stage.
      destruct (string_dec j i) as [->|ne]; [now left|].
      destruct (in_dec string_dec j done) as [H|H]; [now left|].
      right. now split.
    + cbn [append] in E1, E2. rewrite E1, E2.
      rewrite IH.
      * f_equal. f_equal.
        -- now rewrite <- app_assoc.
        -- simpl map. unfold list_sum. simpl fold_right. lia.
        -- now rewrite <- app_assoc.
      * now rewrite <- app_assoc.
      * intros id Hid. apply Hin. now right.
Qed.

(** The run of [substitute_file] under the section's assumptions. *)
Lemma substitute_file_on_reference :
  substitute_file iterate config text tags
  = Returned
      {| content := substitute_one_pass value_of text;
         substitution_count := List.length (findall_placeholders text);
         resolved := map (fun id => (id, value_of id))
                         (iterate (findall_placeholders text)) |}.
Proof.
  destruct (iterate_is_set (findall_placeholders text)) as [Hnd Hin].
  assert (E : substitute_loop config tags (iterate (findall_placeholders text))
                (untouched text)
              = Returned
                  {| content := substitute_one_pass value_of text;
                     substitution_count := List.length (findall_placeholders text);
                     resolved := map (fun id => (id, value_of id))
                                     (iterate (findall_placeholders text)) |}).
  { assert (E0 : untouched text
                 = {| content := substitute_one_pass (stage value_of []) text;
                      substitution_count := 0; resolved := [] |}).
    { unfold untouched. f_equal. symmetry.
      rewrite (one_pass_ext (stage value_of []) placeholder_marker) by reflexivity.
      apply one_pass_marker. }
    rewrite E0.
    rewrite loop_on_stages; [|exact Hnd|intros id; apply Hin].
    cbn [app Nat.add]. f_equal. f_equal.
    - apply one_pass_ext. intros id Hid. unfold stage.
      destruct (in_dec string_dec id (iterate (findall_placeholders text))) as [_|H];
        [reflexivity | elim H; now apply Hin].
    - apply spans_counted; [exact Hnd | intros x; apply Hin]. }
  unfold substitute_file.
  destruct (findall_placeholders text) as [|p l] eqn:F; [|exact E].
  rewrite (iterate_nil _ iterate_is_set) in *. exact E.
Qed.

(** C2, amended: whenever filling in the spans of the template creates
    no marker of one of its identifiers outside that identifier's own
    spans, the text written is the one-pass substitution of the
    template: the text outside the
    placeholder spans is copied unchanged, each span is replaced by the
    resolved value of its identifier, and a value is put in as it is,
    whatever bracketed text it contains, without being scanned again;
    the count reported is the number of spans of the template, so text
    that was put in counts for nothing. *)
Theorem substitution_is_one_pass :
  exists resolutions,
    substitute_file iterate config text tags
    = Returned
        {| content := substitute_one_pass value_of text;
           substitution_count := List.length (findall_placeholders text);
           resolved := resolutions |}.
Proof. eexists. apply substitute_file_on_reference. Qed.

(** C5, amended: under the same proviso, each distinct identifier of
    the template is resolved exactly once, every span of an identifier
    is replaced by that one value, and the count reported is the sum,
    over the distinct identifiers, of the number of occurrences of their
    markers in the template. *)
Theorem substitution_uniform_and_counted :
  let ids := iterate (findall_placeholders text) in
  substitute_file iterate config text tags
  = Returned
      {| content := substitute_one_pass value_of text;
         substitution_count :=
           list_sum (map (fun id => count_occurrences (placeholder_marker id) text) ids);
         resolved := map (fun id => (id, value_of id)) ids |}
  /\ NoDup ids
  /\ (forall id, In id ids <-> In id (findall_placeholders text))
  /\ (forall id, In id ids ->
        _get_value_for_placeholder config id tags = Returned (value_of id)).
Proof.
  intros ids. destruct (iterate_is_set (findall_placeholders text)) as [Hnd Hin].
  split; [|split; [exact Hnd | split; [exact Hin|]]].
  - rewrite substitute_file_on_reference. f_equal. f_equal.
    rewrite <- (spans_counted ids) by (exact Hnd || intros x; apply Hin).
    f_equal. apply map_ext_in. intros id Hid. symmetry.
    apply count_in_template, (findall_valid text), Hin, Hid.
  - intros id Hid. apply resolver_returns, Hin, Hid.
Qed.

End OnePass.

Lemma in_order_is_set : is_set_iteration in_order.
Proof.
  intros l. split; [apply NoDup_nodup | intros x; apply nodup_In].
Qed.

Lemma in_reverse_is_set : is_set_iteration in_reverse.
Proof.
  intros l. unfold in_reverse. split.
  - apply NoDup_rev, NoDup_nodup.
  - intros x. rewrite <- in_rev. apply nodup_In.
Qed.

(** A value with bracketed text of its own is put in as it is, and so
    is the marker the resolver falls back to. *)
Lemma substitution_is_one_pass_witness :
  exists resolutions,
    substitute_file in_reverse
      (JObj [("1", JObj [("default", JStr "John <jd@example.org>")]);
             ("title", JObj [("default", JStr "Engineer"); ("academic", JStr "Dr. <b>")])])
      "Hello <1>, <title> <<1>> and <x y> <unknown>!" ["academic"]
    = Returned
        {| content :=
             "Hello John <jd@example.org>, Dr. <b> <John <jd@example.org>> and <x y> <unknown>!";
           substitution_count := 4;
           resolved := resolutions |}.
Proof.
  assert (F : findall_placeholders "Hello <1>, <title> <<1>> and <x y> <unknown>!"
              = ["1"; "title"; "1"; "unknown"]) by (vm_compute; reflexivity).
  pose proof (substitution_is_one_pass in_reverse
                (JObj [("1", JObj [("default", JStr "John <jd@example.org>")]);
                       ("title", JObj [("default", JStr "Engineer");
                                       ("academic", JStr "Dr. <b>")])])
                ["academic"] "Hello <1>, <title> <<1>> and <x y> <unknown>!"
                (fun id => if String.eqb id "1" then "John <jd@example.org>"
                           else if String.eqb id "title" then "Dr. <b>"
                           else "<unknown>")
                in_reverse_is_set) as H.
  rewrite F in H. vm_compute. apply H.
  - intros id [<-|[<-|[<-|[<-|[]]]]]; vm_compute; reflexivity.
  - intros id [<-|[<-|[<-|[<-|[]]]]]; apply not_occurs; vm_compute; reflexivity.
Defined.

(** The specification's example. *)
Lemma substitution_uniform_and_counted_witness :
  substitute_file in_order (JObj [("1", JObj [("default", JStr "X")])])
    "<1> and <1> again" []
  = Returned {| content := "X and X again"; substitution_count := 2;
                resolved := [("1", "X")] |}.
Proof.
  assert (F : findall_placeholders "<1> and <1> again" = ["1"; "1"])
    by (vm_compute; reflexivity).
  pose proof (substitution_uniform_and_counted in_order
                (JObj [("1", JObj [("default", JStr "X")])]) []
                "<1> and <1> again" (fun _ => "X") in_order_is_set) as H.
  rewrite F in H. vm_compute. apply H.
  - intros id [<-|[<-|[]]]; vm_compute; reflexivity.
  - intros id [<-|[<-|[]]]; apply not_occurs; vm_compute; reflexivity.
Defined.

(** C2 as stated fails: a value that contains the marker of another
    identifier of the template is substituted again when that identifier
    is processed later, and is counted.  Here each of the two possible
    iteration orders does it; one pass would give the third text, with
    two substitutions. *)
Lemma injected_marker_is_substituted_again :
  substitute_file in_order
    (JObj [("1", JObj [("default", JStr "<2>")]); ("2", JObj [("default", JStr "<1>")])])
    "<1> <2>" []
  = Returned {| content := "<1> <1>"; substitution_count := 3;
                resolved := [("1", "<2>"); ("2", "<1>")] |}
  /\ substitute_file in_reverse
       (JObj [("1", JObj [("default", JStr "<2>")]); ("2", JObj [("default", JStr "<1>")])])
       "<1> <2>" []
     = Returned {| content := "<2> <2>"; substitution_count := 3;
                   resolved := [("2", "<1>"); ("1", "<2>")] |}
  /\ substitute_one_pass (fun id => if String.eqb id "1" then "<2>" else "<1>") "<1> <2>"
     = "<2> <1>"
  /\ List.length (findall_placeholders "<1> <2>") = 2.
Proof. repeat split; vm_compute; reflexivity. Qed.

(** Text outside the spans can be consumed as well: the brackets around
    the first span end up inside a second substitution. *)
Example text_outside_spans_is_modified :
  substitute_file in_order
    (JObj [("1", JObj [("default", JStr "a")]); ("a", JObj [("default", JStr "B")])])
    "<<1>> <a>" []
  = Returned {| content := "B B"; substitution_count := 3;
                resolved := [("1", "a"); ("a", "B")] |}
  /\ substitute_one_pass (fun id => if String.eqb id "1" then "a" else "B") "<<1>> <a>"
     = "<a> B".
Proof. repeat split; vm_compute; reflexivity. Qed.

(** C5 as stated fails: the count is not the sum of the occurrence
    counts of the template's identifiers (three here), and the spans of
    one identifier do not end up as that identifier's value; the count
    even depends on the iteration order. *)
Lemma count_is_not_the_sum_of_occurrences :
  substitute_file in_order
    (JObj [("1", JObj [("default", JStr "<2>")]); ("2", JObj [("default", JStr "<1>")])])
    "<1><2><2>" []
  = Returned {| content := "<1><1><1>"; substitution_count := 4;
                resolved := [("1", "<2>"); ("2", "<1>")] |}
  /\ substitute_file in_reverse
       (JObj [("1", JObj [("default", JStr "<2>")]); ("2", JObj [("default", JStr "<1>")])])
       "<1><2><2>" []
     = Returned {| content := "<2><2><2>"; substitution_count := 5;
                   resolved := [("2", "<1>"); ("1", "<2>")] |}
  /\ count_occurrences "<1>" "<1><2><2>" + count_occurrences "<2>" "<1><2><2>" = 3.
Proof. repeat split; vm_compute; reflexivity. Qed.

(** *** Bracketed text that is no placeholder *)

Lemma marker_is_not_malformed (i inner b r : string) :
  valid_ident i -> malformed inner ->
  placeholder_marker i ++ r <> placeholder_marker inner ++ b.
Proof.
  intros Hi (_ & Hclose & Hbad) H. rewrite !marker_app in H. injection H as H.
  apply cut_at_char in H; [|now apply all_ident_no_char, Hi|exact Hclose].
  destruct H as [-> _]. contradiction.
Qed.

(** One [replace] passes over a malformed span: what is before it and
    what is after it are replaced on their own. *)
Lemma replace_around_malformed (i v inner a b : string) :
  valid_ident i -> malformed inner ->
  str_replace (placeholder_marker i) v (a ++ placeholder_marker inner ++ b)
  = str_replace (placeholder_marker i) v a ++ placeholder_marker inner
    ++ str_replace (placeholder_marker i) v b
  /\ count_occurrences (placeholder_marker i) (a ++ placeholder_marker inner ++ b)
     = count_occurrences (placeholder_marker i) a
       + count_occurrences (placeholder_marker i) b.
Proof.
  intros Hi Hbad. pose proof (marker_not_empty i) as Hne.
  induction a as [|c s Hc IH|rest IH] using (literal_scan_ind (placeholder_marker i) Hne).
  - change (str_replace (placeholder_marker i) v EmptyString) with EmptyString.
    change (count_occurrences (placeholder_marker i) EmptyString) with 0.
    cbn [append Nat.add]. rewrite marker_app.
    assert (E : prefix (placeholder_marker i) (String "<" (inner ++ String ">" b)) = false).
    { apply prefix_false. intros [r Hr]. rewrite <- marker_app in Hr.
      symmetry in Hr. now apply marker_is_not_malformed in Hr. }
    rewrite (str_replace_no_match _ _ _ _ Hne E), (count_no_match _ _ _ Hne E).
    change (inner ++ String ">" b) with (inner ++ String ">" EmptyString ++ b).
    rewrite <- append_assoc.
    destruct (marker_replace_skip i v (inner ++ ">") b) as [-> ->].
    + destruct Hbad as (Hopen & _). now rewrite has_char_append, Hopen.
    + unfold placeholder_marker. cbn [append]. now rewrite !append_assoc.
  - assert (E : prefix (placeholder_marker i)
                  (String c s ++ placeholder_marker inner ++ b) = false).
    { apply prefix_false. intros [r Hr]. symmetry in Hr.
      apply append_eq_append in Hr. destruct Hr as [[n [Hn Hr]]|[n [Hn _]]].
      - destruct n as [|d n].
        + rewrite append_nil_r in Hn.
          assert (K : prefix (placeholder_marker i) (String c s) = true)
            by (apply prefix_true; exists EmptyString; now rewrite append_nil_r).
          congruence.
        + rewrite marker_app in Hr. injection Hr as <- _.
          now apply marker_open_at_head in Hn; [|apply Hi].
      - assert (K : prefix (placeholder_marker i) (String c s) = true)
          by (apply prefix_true; now exists n).
        congruence. }
    cbn [append] in *.
    rewrite (str_replace_no_match _ _ _ _ Hne E), (count_no_match _ _ _ Hne E).
    rewrite (str_replace_no_match _ _ _ _ Hne Hc), (count_no_match _ _ _ Hne Hc).
    destruct IH as [-> ->]. now split.
  - rewrite !append_assoc.
    rewrite !(str_replace_match _ _ _ Hne), !(count_match _ _ Hne).
    destruct IH as [-> ->]. rewrite !append_assoc. now split.
Qed.

(** The whole loop passes over a malformed span. *)
Lemma loop_around_malformed (config : json) (tags : list string) (inner : string)
  (ids : list string) :
  malformed inner -> (forall id, In id ids -> valid_ident id) ->
  forall (a b : string) (na nb : nat) (r : list (string * string)),
    substitute_loop config tags ids
      {| content := a ++ placeholder_marker inner ++ b;
         substitution_count := na + nb; resolved := r |}
    = (before <- substitute_loop config tags ids
                   {| content := a; substitution_count := na; resolved := r |} ;;
       after <- substitute_loop config tags ids
                  {| content := b; substitution_count := nb; resolved := r |} ;;
       Returned {| content := content before ++ placeholder_marker inner ++ content after;
                   substitution_count := substitution_count before + substitution_count after;
                   resolved := resolved before |}).
Proof.
  intros Hbad. induction ids as [|i ids IH]; intros Hids a b na nb r.
  - reflexivity.
  - cbn [substitute_loop].
    destruct (_get_value_for_placeholder config i tags) as [v|e]; [|reflexivity].
    cbn [bind content substitution_count resolved].
    destruct (replace_around_malformed i v inner a b) as [-> ->];
      [apply Hids; now left | exact Hbad |].
    replace (na + nb + (count_occurrences (placeholder_marker i) a
                        + count_occurrences (placeholder_marker i) b))
      with ((na + count_occurrences (placeholder_marker i) a)
            + (nb + count_occurrences (placeholder_marker i) b)) by lia.
    apply IH. intros id Hid. apply Hids. now right.
Qed.

(** C10: a bracketed span whose inside is not an identifier (empty, or
    with a character outside the identifier alphabet) comes out as it is,
    between the substitution of the text before it and the substitution
    of the text after it, and the count reported is the sum of the counts
    of those two parts: the span adds nothing to it. *)
Theorem malformed_span_is_left_alone
  (iterate : set_order) (config : json) (tags : list string) (a inner b : string) :
  is_set_iteration iterate ->
  malformed inner ->
  substitute_file iterate config (a ++ placeholder_marker inner ++ b) tags
  = (let ids := iterate (findall_placeholders (a ++ placeholder_marker inner ++ b)) in
     before <- substitute_loop config tags ids (untouched a) ;;
     after <- substitute_loop config tags ids (untouched b) ;;
     Returned {| content := content before ++ placeholder_marker inner ++ content after;
                 substitution_count := substitution_count before + substitution_count after;
                 resolved := resolved before |}).
Proof.
  intros Hset Hbad. cbv zeta. unfold substitute_file.
  destruct (findall_placeholders (a ++ placeholder_marker inner ++ b)) as [|p l] eqn:F.
  - now rewrite (iterate_nil _ Hset).
  - rewrite <- F. unfold untouched.
    apply (loop_around_malformed config tags inner _ Hbad) with (na := 0) (nb := 0).
    intros id Hid. apply (findall_valid (a ++ placeholder_marker inner ++ b)).
    now apply (Hset _).
Qed.

Lemma malformed_empty : malformed EmptyString.
Proof. repeat split. intros [H _]. now apply H. Qed.

Lemma malformed_with_other_char (inner : string) :
  has_char "<" inner = false -> has_char ">" inner = false ->
  all_ident inner = false -> malformed inner.
Proof. intros H1 H2 H3. repeat split; try assumption. intros [_ H]. congruence. Qed.

(** Three such spans, in one template each. *)
Lemma malformed_span_is_left_alone_witness :
  substitute_file in_order
    (JObj [("1", JObj [("default", JStr "John")]); ("2", JObj [("default", JStr "<>")])])
    ("Dear <1>, " ++ placeholder_marker "foo bar" ++ " or <2>") []
  = Returned {| content := "Dear John, <foo bar> or <>"; substitution_count := 2;
                resolved := [("1", "John"); ("2", "<>")] |}
  /\ substitute_file in_reverse
       (JObj [("1", JObj [("default", JStr "John")])])
       ("<1>" ++ placeholder_marker EmptyString ++ "<1>") []
     = Returned {| content := "John<>John"; substitution_count := 2;
                   resolved := [("1", "John")] |}
  /\ substitute_file in_order
       (JObj [("a", JObj [("default", JStr "A")]); ("b", JObj [("default", JStr "B")])])
       ("<a> " ++ placeholder_marker "a-b" ++ " <b>") []
     = Returned {| content := "A <a-b> B"; substitution_count := 2;
                   resolved := [("a", "A"); ("b", "B")] |}.
Proof.
  split; [|split].
  - refine (malformed_span_is_left_alone in_order _ [] "Dear <1>, " "foo bar" " or <2>"
              in_order_is_set _).
    now apply malformed_with_other_char.
  - refine (malformed_span_is_left_alone in_reverse _ [] "<1>" EmptyString "<1>"
              in_reverse_is_set malformed_empty).
  - refine (malformed_span_is_left_alone in_order _ [] "<a> " "a-b" " <b>"
              in_order_is_set _).
    now apply malformed_with_other_char.
Defined.

(** * Further properties of the code *)

(** ** Tag resolver: entries that are no mapping, and totality *)

Lemma resolve_entry (fields : list (string * json)) (id : string)
  (tags : list string) (entry : json) :
  dict_get id fields = Some entry ->
  _get_value_for_placeholder (JObj fields) id tags =
  match entry with
  | JNull => Returned (placeholder_marker id)
  | _ =>
      by_tag <- scan_tags entry tags ;;
      match by_tag with
      | Some text => Returned text
      | None =>
          has_default <- py_in "default" entry ;;
          if has_default then
            value <- py_getitem entry "default" ;;
            Returned (coerce_to_str value)
          else Returned (placeholder_marker id)
      end
  end.
Proof.
  intros H. unfold _get_value_for_placeholder.
  cbn [py_in py_getitem bind]. unfold dict_has. rewrite H. reflexivity.
Qed.

Lemma resolve_absent
  (fields : list (string * json)) (id : string) (tags : list string) :
  dict_get id fields = None ->
  _get_value_for_placeholder (JObj fields) id tags
  = Returned (placeholder_marker id).
Proof.
  intros H. unfold _get_value_for_placeholder. cbn [py_in bind].
  unfold dict_has. now rewrite H.
Qed.

(** X1: an identifier that the configuration does not have, or has with
    the value null, resolves to its own marker, for every tag list. *)
Theorem resolver_marker_when_absent_or_null
  (fields : list (string * json)) (id : string) (tags : list string) :
  dict_get id fields = None \/ dict_get id fields = Some JNull ->
  _get_value_for_placeholder (JObj fields) id tags
  = Returned (placeholder_marker id).
Proof.
  intros [H|H].
  - now apply resolve_absent.
  - now rewrite (resolve_entry _ _ _ _ H).
Qed.

Lemma resolver_marker_when_absent_or_null_witness :
  _get_value_for_placeholder
    (JObj [("1", JObj [("default", JStr "John")]); ("2", JNull)]) "2" ["academic"]
  = Returned "<2>"
  /\ _get_value_for_placeholder
       (JObj [("1", JObj [("default", JStr "John")]); ("2", JNull)]) "title" ["academic"]
     = Returned "<title>".
Proof.
  split.
  - refine (resolver_marker_when_absent_or_null _ "2" ["academic"] _).
    right. reflexivity.
  - refine (resolver_marker_when_absent_or_null _ "title" ["academic"] _).
    left. reflexivity.
Defined.

Lemma scan_tags_in_mapping (entry : list (string * json)) (tags : list string) :
  exists by_tag, scan_tags (JObj entry) tags = Returned by_tag.
Proof.
  induction tags as [|t tags [by_tag IH]]; cbn [scan_tags py_in py_getitem bind].
  - now exists None.
  - unfold dict_has. destruct (dict_get t entry) as [v|]; cbn [bind].
    + now exists (Some (coerce_to_str v)).
    + now exists by_tag.
Qed.

(** X2: when every entry of the configuration is a mapping or null, the
    resolver returns a string for every identifier and every tag list: it
    never raises, whatever the values stored in the mappings. *)
Theorem resolver_returns_on_mappings
  (fields : list (string * json)) (id : string) (tags : list string) :
  (forall key entry, dict_get key fields = Some entry ->
     entry = JNull \/ exists mapping, entry = JObj mapping) ->
  exists text, _get_value_for_placeholder (JObj fields) id tags = Returned text.
Proof.
  intros Hwf. destruct (dict_get id fields) as [entry|] eqn:E.
  - rewrite (resolve_entry _ _ _ _ E).
    destruct (Hwf _ _ E) as [->|[mapping ->]]; [now eexists|].
    destruct (scan_tags_in_mapping mapping tags) as [[text|] ->]; cbn [bind py_in py_getitem].
    + now eexists.
    + unfold dict_has. destruct (dict_get "default" mapping); cbn [bind]; now eexists.
  - exists (placeholder_marker id).
    apply resolve_absent. exact E.
Qed.

Lemma resolver_returns_on_mappings_witness :
  exists text,
    _get_value_for_placeholder
      (JObj [("1", JObj [("default", JNull); ("nested", JObj [("invalid", JStr "structure")])]);
             ("2", JNull)])
      "1" ["missing"; "nested"]
    = Returned text.
Proof.
  refine (resolver_returns_on_mappings _ "1" ["missing"; "nested"] _).
  intros key entry. cbn [dict_get].
  destruct (String.eqb key "1"); [intros [= <-]; right; now eexists|].
  destruct (String.eqb key "2"); [intros [= <-]; now left | discriminate].
Defined.

Lemma scan_tags_in_string (s : string) (tags : list string) :
  scan_tags (JStr s) tags =
  if existsb (fun tag => str_contains tag s) tags then Raised TypeError
  else Returned None.
Proof.
  induction tags as [|t tags IH]; cbn [scan_tags py_in py_getitem bind existsb].
  - reflexivity.
  - destruct (str_contains t s); [reflexivity | exact IH].
Qed.

(** X3: an entry that is a string answers the membership tests by
    substring: the resolver raises TypeError as soon as one of the tags,
    or the word default, is a substring of it, and returns the marker of
    the identifier exactly when none is. *)
Theorem resolver_on_string_entry
  (fields : list (string * json)) (id s : string) (tags : list string) :
  dict_get id fields = Some (JStr s) ->
  _get_value_for_placeholder (JObj fields) id tags =
  if existsb (fun tag => str_contains tag s) tags || str_contains "default" s
  then Raised TypeError
  else Returned (placeholder_marker id).
Proof.
  intros H. rewrite (resolve_entry _ _ _ _ H), scan_tags_in_string.
  destruct (existsb (fun tag => str_contains tag s) tags); [reflexivity|].
  cbn [bind py_in py_getitem orb].
  destruct (str_contains "default" s); reflexivity.
Qed.

Lemma resolver_on_string_entry_witness :
  _get_value_for_placeholder (JObj [("2", JStr "Invalid Structure")]) "2" ["academic"]
  = Returned "<2>"
  /\ _get_value_for_placeholder (JObj [("2", JStr "Invalid Structure")]) "2" ["valid"]
     = Raised TypeError
  /\ _get_value_for_placeholder (JObj [("2", JStr "Invalid Structure")]) "2" [EmptyString]
     = Raised TypeError.
Proof.
  split; [|split].
  - refine (resolver_on_string_entry _ "2" "Invalid Structure" ["academic"] _). reflexivity.
  - refine (resolver_on_string_entry _ "2" "Invalid Structure" ["valid"] _). reflexivity.
  - refine (resolver_on_string_entry _ "2" "Invalid Structure" [EmptyString] _). reflexivity.
Defined.

(** ** Country classifier and the driver's tag list *)

(** X4: every answer of the classifier other than default is one of the
    country tags of the path builder. *)
Theorem classifier_answers_are_country_tags (name : string) :
  map_country_to_tag name <> "default" ->
  set_mem (map_country_to_tag name) country_tags = true.
Proof.
  unfold map_country_to_tag.
  destruct (dict_get (str_lower name) direct_mappings) as [tag|] eqn:E.
  - intros _. apply dict_get_in_values in E. simpl in E.
    repeat (destruct E as [<-|E]; [reflexivity|]). destruct E.
  - destruct (set_mem (str_lower name) european_countries);
      [reflexivity | intros H; now elim H].
Qed.

Lemma classifier_answers_are_country_tags_witness :
  set_mem (map_country_to_tag "Czech Republic") country_tags = true.
Proof.
  refine (classifier_answers_are_country_tags "Czech Republic" _).
  vm_compute. discriminate.
Defined.

(** X5: when [--country] names a country whose tag is not default and the
    entry of a placeholder is a mapping with that tag as a key, the value
    under the country's tag is what the run resolves, whatever [--tags]
    says: the country comes first in the tag list. *)
Theorem country_value_has_priority
  (args : arguments) (country : string) (fields entry : list (string * json))
  (id : string) (value : json) :
  given (arg_country args) = Some country ->
  map_country_to_tag country <> "default" ->
  dict_get id fields = Some (JObj entry) ->
  dict_get (map_country_to_tag country) entry = Some value ->
  _get_value_for_placeholder (JObj fields) id (run_tags args)
  = Returned (coerce_to_str value).
Proof.
  intros Hc Hne Hid Hv. unfold run_tags. rewrite Hc.
  destruct (String.eqb_spec (map_country_to_tag country) "default") as [E|_];
    [contradiction|].
  rewrite (resolve_in_mapping _ _ _ _ Hid).
  cbn [scan_tags py_in py_getitem bind]. unfold dict_has. now rewrite Hv.
Qed.

Lemma country_value_has_priority_witness :
  _get_value_for_placeholder
    (JObj [("phone", JObj [("default", JStr "+34"); ("uk", JStr "+44");
                           ("finance", JStr "+1")])])
    "phone"
    (run_tags {| arg_tags := Some "finance, uk"; arg_country := Some "Scotland";
                 arg_output := None; arg_input := "resume.tex";
                 arg_use_folders := true; arg_no_folders := false |})
  = Returned "+44".
Proof.
  refine (country_value_has_priority _ "Scotland" _
            [("default", JStr "+34"); ("uk", JStr "+44"); ("finance", JStr "+1")]
            "phone" (JStr "+44") _ _ _ _).
  - reflexivity.
  - vm_compute. discriminate.
  - reflexivity.
  - reflexivity.
Defined.

(** ** Output path builder: what the path depends on *)

(** The path as a function of the two locals of the loop that it uses. *)
Lemma create_folder_structure_from_buckets
  (tags : list string) (base_output_file country_original : string) :
  create_folder_structure tags base_output_file country_original =
  path_str
    (joinpath
       (joinpath
          (joinpath
             (Path (folder_country_of country_original
                      (or_else (last_match country_tags tags) "default")))
             (folder_name_of (filter is_other_tag tags)))
          "Position")
       (path_name (Path base_output_file))).
Proof.
  unfold create_folder_structure. cbv zeta. rewrite stem_suffix.
  destruct (partition_tags_fields tags) as [-> ->]. reflexivity.
Qed.

Lemma find_filter_implied {A : Type} (p q : A -> bool) (l : list A) :
  (forall x, p x = true -> q x = true) ->
  find p (filter q l) = find p l.
Proof.
  intros H. induction l as [|a l IH]; [reflexivity|].
  cbn [filter find]. destruct (p a) eqn:Ep.
  - rewrite (H a Ep). cbn [find]. now rewrite Ep.
  - destruct (q a); cbn [find]; [rewrite Ep|]; exact IH.
Qed.

Lemma filter_filter_implied {A : Type} (p q : A -> bool) (l : list A) :
  (forall x, p x = true -> q x = true) ->
  filter p (filter q l) = filter p l.
Proof.
  intros H. induction l as [|a l IH]; [reflexivity|].
  cbn [filter]. destruct (p a) eqn:Ep.
  - rewrite (H a Ep). cbn [filter]. now rewrite Ep, IH.
  - destruct (q a); cbn [filter]; [rewrite Ep|]; exact IH.
Qed.

Lemma filter_rev_comm {A : Type} (q : A -> bool) (l : list A) :
  rev (filter q l) = filter q (rev l).
Proof.
  induction l as [|a l IH]; [reflexivity|].
  cbn [filter rev]. rewrite filter_app. cbn [filter].
  destruct (q a); cbn [rev]; rewrite IH; [reflexivity | now rewrite app_nil_r].
Qed.

(** X6: position tags have no effect on the path: the path built from a
    tag list is the path built from the list without its position tags. *)
Theorem position_tags_do_not_change_path
  (tags : list string) (base_output_file country_original : string) :
  create_folder_structure
    (filter (fun t => negb (set_mem t position_tags)) tags)
    base_output_file country_original
  = create_folder_structure tags base_output_file country_original.
Proof.
  rewrite !create_folder_structure_from_buckets. unfold last_match.
  rewrite filter_rev_comm, find_filter_implied, filter_filter_implied; [reflexivity| |].
  - intros t. unfold is_other_tag. intros H. now apply andb_prop in H.
  - intros t H. now rewrite (country_is_no_position t H).
Qed.

(** X7: when an original country name is given, the country tags of the
    list have no effect on the path either: it is the path built from the
    tags that are neither country nor position tags. *)
Theorem only_other_tags_matter_with_country_name
  (tags : list string) (base_output_file country_original : string) :
  country_original <> EmptyString ->
  create_folder_structure (filter is_other_tag tags) base_output_file country_original
  = create_folder_structure tags base_output_file country_original.
Proof.
  intros Hne. rewrite !create_folder_structure_from_buckets.
  rewrite filter_filter_implied by trivial.
  destruct country_original; [contradiction | reflexivity].
Qed.

Lemma only_other_tags_matter_with_country_name_witness :
  create_folder_structure
    (filter is_other_tag ["usa"; "finance"; "uk"; "engineer"; "remote"])
    "resume.tex" "Canada"
  = create_folder_structure ["usa"; "finance"; "uk"; "engineer"; "remote"]
      "resume.tex" "Canada".
Proof.
  refine (only_other_tags_matter_with_country_name _ "resume.tex" "Canada" _).
  discriminate.
Defined.

Lemma split_on_pieces (sep : ascii) (s piece : string) :
  In piece (split_on sep s) -> has_char sep piece = false.
Proof.
  revert piece. induction s as [|c s IH]; intros piece; cbn [split_on].
  - intros [<-|[]]. reflexivity.
  - destruct (Ascii.eqb_spec c sep) as [->|ne].
    + intros [<-|H]; [reflexivity | now apply IH].
    + destruct (split_on sep s) as [|head tail] eqn:E.
      * intros [<-|[]]. cbn [has_char].
        destruct (Ascii.eqb_spec sep c); [now elim ne | reflexivity].
      * intros [<-|H].
        -- cbn [has_char]. rewrite (IH head (or_introl eq_refl)).
           destruct (Ascii.eqb_spec sep c); [now elim ne | reflexivity].
        -- apply IH. now right.
Qed.

Lemma last_in {A : Type} (l : list A) (d : A) : l <> [] -> In (last l d) l.
Proof.
  induction l as [|a l IH]; [now intros H|]. intros _.
  destruct l as [|b l]; [now left|]. right. apply IH. discriminate.
Qed.

(** The name of a path is itself a path with that name. *)
Lemma path_name_again (s : string) :
  path_name (Path (path_name (Path s))) = path_name (Path s).
Proof.
  unfold path_name at 2 3. cbn [parts Path].
  destruct (filter is_real_part (split_on "/" s)) as [|p ps] eqn:E; [reflexivity|].
  assert (Hin : In (last (p :: ps) EmptyString) (filter is_real_part (split_on "/" s))).
  { rewrite E. apply last_in. discriminate. }
  apply filter_In in Hin. destruct Hin as [Hpiece Hreal].
  rewrite Path_plain; [reflexivity|].
  unfold is_real_part in Hreal. apply negb_true_iff, orb_false_elim in Hreal.
  destruct Hreal as [H1 H2]. apply String.eqb_neq in H1, H2.
  repeat split; [now apply (split_on_pieces "/" s) | exact H1 | exact H2].
Qed.

(** X8: of [base_output_file] only the file name is used: its
    directories do not appear in the path. *)
Theorem directories_of_base_file_are_dropped
  (tags : list string) (base_output_file country_original : string) :
  create_folder_structure tags (path_name (Path base_output_file)) country_original
  = create_folder_structure tags base_output_file country_original.
Proof.
  rewrite !create_folder_structure_from_buckets. now rewrite path_name_again.
Qed.

(** ** Template substitution engine: the scan and the loop *)

Lemma occurs_in_empty (p : string) : p <> EmptyString -> ~ occurs p EmptyString.
Proof.
  intros Hne [a [b H]]. destruct a; [|discriminate].
  destruct p; [now apply Hne | discriminate].
Qed.

(** X9: the scan for placeholders misses nothing and invents nothing: an
    identifier is among the placeholders found in a text exactly when it
    is a valid identifier and its marker occurs in the text. *)
Theorem findall_finds_exactly_the_markers (text id : string) :
  In id (findall_placeholders text) <->
  valid_ident id /\ occurs (placeholder_marker id) text.
Proof.
  split.
  - intros H. split; [now apply (findall_valid text)|]. revert H.
    induction text as [|c s Hc IH|j rest Hj IH] using placeholder_scan_ind.
    + intros [].
    + rewrite (findall_no_match _ _ Hc). intros H.
      now apply (occurs_app_r _ (String c EmptyString)), IH.
    + rewrite (findall_match _ _ Hj). intros [<-|H].
      * apply occurs_here.
      * now apply occurs_app_r, IH.
  - intros [Hid Hocc]. revert Hocc.
    induction text as [|c s Hc IH|j rest Hj IH] using placeholder_scan_ind.
    + intros H. now apply occurs_in_empty in H.
    + rewrite (findall_no_match _ _ Hc). intros [a [b H]]. apply IH.
      destruct a as [|d a].
      * assert (E : match_placeholder (String c s) = Some (id, b))
          by now apply match_placeholder_some.
        congruence.
      * cbn [append] in H. injection H as _ ->. now exists a, b.
    + rewrite (findall_match _ _ Hj). intros H.
      destruct (string_dec j id) as [->|ne]; [now left | right].
      apply IH.
      apply (occurs_across_marker id j EmptyString rest) in H;
        [|apply Hid|apply Hj|congruence].
      destruct H as [H|H]; [|exact H].
      now apply occurs_in_empty in H.
Qed.

Lemma loop_returns (config : json) (tags ids : list string) :
  (forall id, In id ids ->
     exists value, _get_value_for_placeholder config id tags = Returned value) ->
  forall st, exists result, substitute_loop config tags ids st = Returned result.
Proof.
  induction ids as [|i ids IH]; intros H st; cbn [substitute_loop].
  - now exists st.
  - destruct (H i (or_introl eq_refl)) as [value ->]. cbn [bind].
    apply IH. intros id Hid. apply H. now right.
Qed.

Lemma loop_raises (config : json) (tags ids : list string) (id : string) (e : exn) :
  In id ids -> _get_value_for_placeholder config id tags = Raised e ->
  forall st, exists e', substitute_loop config tags ids st = Raised e'.
Proof.
  induction ids as [|i ids IH]; intros Hin Hraise st; [destruct Hin|].
  cbn [substitute_loop].
  destruct (_get_value_for_placeholder config i tags) as [value|e0] eqn:E; cbn [bind].
  - destruct Hin as [->|Hin]; [congruence | now apply IH].
  - now exists e0.
Qed.

(** X10: a run returns exactly when the resolver returns for every
    identifier found in the template; an identifier for which it raises
    makes the whole run raise, and nothing is written. *)
Theorem substitute_file_returns_iff_resolver_does
  (iterate : set_order) (config : json) (text : string) (tags : list string) :
  is_set_iteration iterate ->
  (exists result, substitute_file iterate config text tags = Returned result) <->
  (forall id, In id (findall_placeholders text) ->
     exists value, _get_value_for_placeholder config id tags = Returned value).
Proof.
  intros Hset. destruct (Hset (findall_placeholders text)) as [_ Hin].
  unfold substitute_file. split.
  - intros [result H] id Hid.
    destruct (_get_value_for_placeholder config id tags) as [value|e] eqn:E;
      [now exists value|].
    destruct (loop_raises config tags (iterate (findall_placeholders text)) id e
                (proj2 (Hin id) Hid) E (untouched text)) as [e' He].
    destruct (findall_placeholders text); [destruct Hid | congruence].
  - intros H. destruct (findall_placeholders text) as [|p l] eqn:F; [now eexists|].
    apply loop_returns. intros id Hid. apply H. now apply Hin.
Qed.

Lemma substitute_file_returns_iff_resolver_does_witness :
  exists result,
    substitute_file in_reverse
      (JObj [("1", JObj [("default", JStr "John")]); ("2", JNull)])
      "Dear <1>, <2> <3>" ["academic"] = Returned result.
Proof.
  apply (proj2 (substitute_file_returns_iff_resolver_does in_reverse
                  (JObj [("1", JObj [("default", JStr "John")]); ("2", JNull)])
                  "Dear <1>, <2> <3>" ["academic"] in_reverse_is_set)).
  assert (F : findall_placeholders "Dear <1>, <2> <3>" = ["1"; "2"; "3"])
    by (vm_compute; reflexivity).
  rewrite F. intros id [<-|[<-|[<-|[]]]].
  - exists "John". vm_compute. reflexivity.
  - exists "<2>". vm_compute. reflexivity.
  - exists "<3>". vm_compute. reflexivity.
Defined.

(** *** Every span of the template is counted *)

(** An occurrence of a marker never runs into an opening bracket: the
    text before one and the text from it on are replaced on their own. *)
Lemma replace_before_open (i v a tail : string) :
  all_ident i = true ->
  str_replace (placeholder_marker i) v (a ++ String "<" tail)
  = str_replace (placeholder_marker i) v a
    ++ str_replace (placeholder_marker i) v (String "<" tail)
  /\ count_occurrences (placeholder_marker i) (a ++ String "<" tail)
     = count_occurrences (placeholder_marker i) a
       + count_occurrences (placeholder_marker i) (String "<" tail).
Proof.
  intros Hi. pose proof (marker_not_empty i) as Hne.
  induction a as [|c s Hc IH|rest IH] using (literal_scan_ind (placeholder_marker i) Hne).
  - now split.
  - assert (E : prefix (placeholder_marker i) (String c s ++ String "<" tail) = false).
    { apply prefix_false. intros [r Hr]. symmetry in Hr.
      apply append_eq_append in Hr. destruct Hr as [[n [Hn Hr]]|[n [Hn _]]].
      - destruct n as [|d n].
        + rewrite append_nil_r in Hn.
          assert (K : prefix (placeholder_marker i) (String c s) = true)
            by (apply prefix_true; exists EmptyString; now rewrite append_nil_r).
          congruence.
        + injection Hr as <- _. now apply marker_open_at_head in Hn.
      - assert (K : prefix (placeholder_marker i) (String c s) = true)
          by (apply prefix_true; now exists n).
        congruence. }
    cbn [append] in *.
    rewrite (str_replace_no_match _ _ _ _ Hne E), (count_no_match _ _ _ Hne E).
    rewrite (str_replace_no_match _ _ _ _ Hne Hc), (count_no_match _ _ _ Hne Hc).
    destruct IH as [-> ->]. now split.
  - rewrite !append_assoc.
    rewrite !(str_replace_match _ _ _ Hne), !(count_match _ _ Hne).
    destruct IH as [-> ->]. rewrite !append_assoc. now split.
Qed.

(** One [replace] on a text that holds the marker of [j]. *)
Lemma replace_around_marker (i v j a b : string) :
  valid_ident i -> valid_ident j ->
  str_replace (placeholder_marker i) v (a ++ placeholder_marker j ++ b)
  = str_replace (placeholder_marker i) v a
    ++ (if string_dec j i then v else placeholder_marker j)
    ++ str_replace (placeholder_marker i) v b
  /\ count_occurrences (placeholder_marker i) (a ++ placeholder_marker j ++ b)
     = count_occurrences (placeholder_marker i) a
       + (if string_dec j i then 1 else 0)
       + count_occurrences (placeholder_marker i) b.
Proof.
  intros Hi Hj. pose proof (marker_not_empty i) as Hne.
  rewrite marker_app.
  destruct (replace_before_open i v a (j ++ String ">" b) (proj2 Hi)) as [-> ->].
  rewrite <- marker_app.
  destruct (string_dec j i) as [->|ne].
  - rewrite (str_replace_match _ _ _ Hne), (count_match _ _ Hne). split; [reflexivity | lia].
  - rewrite marker_app.
    assert (E : prefix (placeholder_marker i) (String "<" (j ++ String ">" b)) = false).
    { apply prefix_false. intros [r Hr]. rewrite <- marker_app in Hr.
      symmetry in Hr. apply marker_prefix_inj in Hr; [|apply Hi|apply Hj].
      destruct Hr as [-> _]. now elim ne. }
    rewrite (str_replace_no_match _ _ _ _ Hne E), (count_no_match _ _ _ Hne E).
    change (j ++ String ">" b) with (j ++ String ">" EmptyString ++ b).
    rewrite <- append_assoc.
    destruct (marker_replace_skip i v (j ++ ">") b) as [-> ->];
      [now apply marker_tail_no_open, Hj|].
    split; [|lia].
    unfold placeholder_marker. cbn [append]. now rewrite !append_assoc.
Qed.

Lemma hosts_after (spans : list string) (x text : string) :
  hosts spans text -> hosts spans (x ++ text).
Proof.
  destruct spans as [|id rest]; [trivial|].
  intros (before & after & -> & H). exists (x ++ before), after.
  split; [now rewrite append_assoc | exact H].
Qed.

Lemma hosts_findall (text : string) : hosts (findall_placeholders text) text.
Proof.
  induction text as [|c s Hc IH|j rest Hj IH] using placeholder_scan_ind.
  - exact I.
  - rewrite (findall_no_match _ _ Hc).
    now apply (hosts_after _ (String c EmptyString)).
  - rewrite (findall_match _ _ Hj). now exists EmptyString, rest.
Qed.

(** One iteration keeps the spans of the other identifiers in place and
    counts at least the spans of its own. *)
Lemma hosts_replace (i v : string) (spans : list string) (text : string) :
  valid_ident i -> Forall valid_ident spans -> hosts spans text ->
  hosts (filter (fun j => negb (String.eqb j i)) spans)
        (str_replace (placeholder_marker i) v text)
  /\ count_occ string_dec spans i <= count_occurrences (placeholder_marker i) text.
Proof.
  intros Hi Hspans. revert text.
  induction Hspans as [|j spans Hj _ IH]; intros text H.
  - split; [exact I | apply Nat.le_0_l].
  - destruct H as (before & after & -> & H).
    destruct (IH after H) as [IH1 IH2].
    destruct (replace_around_marker i v j before after Hi Hj) as [-> ->].
    cbn [filter]. rewrite count_occ_string_cons.
    destruct (string_dec j i) as [->|ne].
    + rewrite String.eqb_refl. cbn [negb]. split; [|lia].
      now apply hosts_after, hosts_after.
    + destruct (String.eqb_spec j i) as [->|_]; [now elim ne|]. cbn [negb].
      split; [|lia]. now eexists _, _.
Qed.

Lemma count_occ_filter_other (i j : string) (spans : list string) :
  j <> i ->
  count_occ string_dec (filter (fun k => negb (String.eqb k i)) spans) j
  = count_occ string_dec spans j.
Proof.
  intros ne. induction spans as [|k spans IH]; [reflexivity|].
  cbn [filter]. destruct (String.eqb_spec k i) as [->|nk]; cbn [negb].
  - rewrite count_occ_cons_neq by congruence. exact IH.
  - rewrite !count_occ_string_cons. now rewrite IH.
Qed.

Lemma loop_counts_spans (config : json) (tags ids : list string) :
  NoDup ids -> Forall valid_ident ids ->
  forall (spans : list string) (st result : substitution),
    Forall valid_ident spans -> hosts spans (content st) ->
    substitute_loop config tags ids st = Returned result ->
    substitution_count st + list_sum (map (count_occ string_dec spans) ids)
    <= substitution_count result.
Proof.
  induction 1 as [|i ids Hfresh Hnd IH]; intros Hvalid spans st result Hspans Hhosts.
  - cbn [substitute_loop]. intros [= <-]. cbn [map]. unfold list_sum. simpl. lia.
  - cbn [substitute_loop].
    destruct (_get_value_for_placeholder config i tags) as [v|e]; [|discriminate].
    cbn [bind]. intros Hrun.
    inversion Hvalid as [|? ? Hi Hids]; subst.
    destruct (hosts_replace i v spans (content st) Hi Hspans Hhosts) as [Hkeep Hcount].
    apply (IH Hids (filter (fun j => negb (String.eqb j i)) spans)) in Hrun;
      [| |exact Hkeep].
    + cbn [content substitution_count] in Hrun.
      rewrite (map_ext_in _ (count_occ string_dec spans)) in Hrun.
      * change (list_sum (map (count_occ string_dec spans) (i :: ids)))
          with (count_occ string_dec spans i
                + list_sum (map (count_occ string_dec spans) ids)).
        lia.
      * intros j Hj. apply count_occ_filter_other. intros ->. contradiction.
    + rewrite Forall_forall in *. intros j Hj. apply filter_In in Hj. now apply Hspans.
Qed.

(** X11: a run that returns has counted every placeholder span of the
    template: the total it reports is never less than the number of
    spans, whatever the values that were put in. *)
Theorem count_covers_every_span
  (iterate : set_order) (config : json) (text : string) (tags : list string)
  (result : substitution) :
  is_set_iteration iterate ->
  substitute_file iterate config text tags = Returned result ->
  List.length (findall_placeholders text) <= substitution_count result.
Proof.
  intros Hset. destruct (Hset (findall_placeholders text)) as [Hnd Hin].
  assert (Hvalid : Forall valid_ident (findall_placeholders text)).
  { apply Forall_forall. intros id. apply findall_valid. }
  unfold substitute_file.
  destruct (findall_placeholders text) as [|p l] eqn:F.
  - intros [= <-]. apply Nat.le_0_l.
  - rewrite <- F in *. intros Hrun.
    apply (loop_counts_spans config tags _ Hnd) with (spans := findall_placeholders text)
      in Hrun.
    + rewrite spans_counted in Hrun; [exact Hrun | exact Hnd | intros x; apply Hin].
    + apply Forall_forall. intros id Hid. apply (findall_valid text). now apply Hin.
    + exact Hvalid.
    + apply hosts_findall.
Qed.

Lemma count_covers_every_span_witness :
  List.length (findall_placeholders "<1><2><2>") <= 5.
Proof.
  refine (count_covers_every_span in_reverse
            (JObj [("1", JObj [("default", JStr "<2>")]);
                   ("2", JObj [("default", JStr "<1>")])])
            "<1><2><2>" []
            {| content := "<2><2><2>"; substitution_count := 5;
               resolved := [("2", "<1>"); ("1", "<2>")] |}
            in_reverse_is_set _).
  vm_compute. reflexivity.
Defined.

(** *** Two cases in which the run is the one-pass substitution *)

Lemma occurs_marker_has_open (id text : string) :
  occurs (placeholder_marker id) text -> has_char "<" text = true.
Proof.
  intros [a [b ->]]. rewrite marker_app. apply has_char_split.
Qed.

Lemma one_pass_without_open (g : string -> string) (text : string) :
  (forall id, In id (findall_placeholders text) -> has_char "<" (g id) = false) ->
  has_char "<" (substitute_one_pass (fun _ => EmptyString) text) = false ->
  has_char "<" (substitute_one_pass g text) = false.
Proof.
  induction text as [|c s Hc IH|j rest Hj IH] using placeholder_scan_ind; intros Hg H.
  - reflexivity.
  - rewrite (one_pass_no_match _ _ _ Hc) in H. rewrite (one_pass_no_match g _ _ Hc).
    rewrite (findall_no_match _ _ Hc) in Hg.
    cbn [has_char] in *. apply orb_false_elim in H. destruct H as [-> H]. now apply IH.
  - rewrite (one_pass_match _ _ _ Hj) in H. rewrite (one_pass_match g _ _ Hj).
    rewrite (findall_match _ _ Hj) in Hg.
    cbn [append] in H. rewrite has_char_append, (Hg j (or_introl eq_refl)).
    apply IH; [|exact H]. intros id Hid. apply Hg. now right.
Qed.

(** X12: when no resolved value contains an opening angle bracket and the
    template has none outside its placeholder spans, the run is the
    one-pass substitution of the template and reports the number of its
    spans, in whatever order the identifiers are processed. *)
Theorem bracket_free_values_give_one_pass
  (iterate : set_order) (config : json) (tags : list string) (text : string)
  (value_of : string -> string) :
  is_set_iteration iterate ->
  (forall id, In id (findall_placeholders text) ->
     _get_value_for_placeholder config id tags = Returned (value_of id)) ->
  (forall id, In id (findall_placeholders text) -> has_char "<" (value_of id) = false) ->
  has_char "<" (substitute_one_pass (fun _ => EmptyString) text) = false ->
  substitute_file iterate config text tags
  = Returned
      {| content := substitute_one_pass value_of text;
         substitution_count := List.length (findall_placeholders text);
         resolved := map (fun id => (id, value_of id))
                         (iterate (findall_placeholders text)) |}.
Proof.
  intros Hset Hres Hvalues Htemplate.
  apply substitute_file_on_reference; [exact Hset | exact Hres|].
  intros id _ Hocc. apply occurs_marker_has_open in Hocc.
  rewrite one_pass_without_open in Hocc; [discriminate| |exact Htemplate].
  intros j Hj. unfold elsewhere. destruct (string_dec j id); [reflexivity|].
  now apply Hvalues.
Qed.

Lemma bracket_free_values_give_one_pass_witness :
  substitute_file in_reverse
    (JObj [("name", JObj [("default", JStr "John Doe"); ("academic", JStr "Dr. John Doe")]);
           ("title", JObj [("default", JStr "title")])])
    "\name{<name>} is <title>, <name>" ["academic"]
  = Returned
      {| content := "\name{Dr. John Doe} is title, Dr. John Doe";
         substitution_count := 3;
         resolved := [("name", "Dr. John Doe"); ("title", "title")] |}.
Proof.
  assert (F : findall_placeholders "\name{<name>} is <title>, <name>"
              = ["name"; "title"; "name"]) by (vm_compute; reflexivity).
  pose proof (bracket_free_values_give_one_pass in_reverse
                (JObj [("name", JObj [("default", JStr "John Doe");
                                      ("academic", JStr "Dr. John Doe")]);
                       ("title", JObj [("default", JStr "title")])])
                ["academic"] "\name{<name>} is <title>, <name>"
                (fun id => if String.eqb id "name" then "Dr. John Doe" else "title")
                in_reverse_is_set) as H.
  rewrite F in H. vm_compute. apply H.
  - intros id [<-|[<-|[<-|[]]]]; vm_compute; reflexivity.
  - intros id [<-|[<-|[<-|[]]]]; vm_compute; reflexivity.
  - vm_compute. reflexivity.
Defined.

Lemma replace_in_template (i v text : string) :
  valid_ident i ->
  (forall j, In j (findall_placeholders text) -> j = i) ->
  str_replace (placeholder_marker i) v text = substitute_one_pass (fun _ => v) text.
Proof.
  intros Hi. pose proof (marker_not_empty i) as Hne.
  induction text as [|c s Hc IH|j rest Hj IH] using placeholder_scan_ind; intros H.
  - reflexivity.
  - rewrite (one_pass_no_match _ _ _ Hc). rewrite (findall_no_match _ _ Hc) in H.
    rewrite str_replace_no_match; [now rewrite IH | exact Hne|].
    apply prefix_false. intros [r Hr].
    assert (E : match_placeholder (String c s) = Some (i, r))
      by now apply match_placeholder_some.
    congruence.
  - rewrite (one_pass_match _ _ _ Hj). rewrite (findall_match _ _ Hj) in H.
    rewrite (H j (or_introl eq_refl)).
    rewrite (str_replace_match _ _ _ Hne), IH; [reflexivity|].
    intros k Hk. apply H. now right.
Qed.

Lemma iterate_single (iterate : set_order) (i : string) (l : list string) :
  is_set_iteration iterate -> l <> [] -> (forall j, In j l -> j = i) ->
  iterate l = [i].
Proof.
  intros Hset Hne Hall. destruct (Hset l) as [Hnd Hin].
  assert (Hi : In i (iterate l)).
  { destruct l as [|x l]; [contradiction|]. apply Hin.
    rewrite <- (Hall x (or_introl eq_refl)). now left. }
  assert (Hsame : forall j, In j (iterate l) -> j = i)
    by (intros j Hj; now apply Hall, Hin).
  destruct (iterate l) as [|a [|b rest]]; [destruct Hi | |].
  - now rewrite (Hsame a (or_introl eq_refl)).
  - exfalso. inversion Hnd as [|? ? Hfresh _]; subst. apply Hfresh.
    rewrite (Hsame a (or_introl eq_refl)), (Hsame b (or_intror (or_introl eq_refl))).
    now left.
Qed.

Lemma all_same_count (i : string) (l : list string) :
  (forall j, In j l -> j = i) -> count_occ string_dec l i = List.length l.
Proof.
  induction l as [|x l IH]; intros H; [reflexivity|].
  rewrite count_occ_cons_eq by (apply H; now left).
  cbn [List.length]. f_equal. apply IH. intros j Hj. apply H. now right.
Qed.

(** X13: a template all of whose placeholders have the same identifier
    is substituted in one pass whatever the value is, its own marker or
    the markers of other identifiers included: every span is replaced by
    the value, nothing else changes, and the count is the number of
    spans. *)
Theorem single_identifier_is_one_pass
  (iterate : set_order) (config : json) (tags : list string) (text i v : string) :
  is_set_iteration iterate ->
  findall_placeholders text <> [] ->
  (forall j, In j (findall_placeholders text) -> j = i) ->
  _get_value_for_placeholder config i tags = Returned v ->
  substitute_file iterate config text tags
  = Returned
      {| content := substitute_one_pass (fun _ => v) text;
         substitution_count := List.length (findall_placeholders text);
         resolved := [(i, v)] |}.
Proof.
  intros Hset Hne Hall Hres.
  assert (Hi : valid_ident i).
  { destruct (findall_placeholders text) as [|x l] eqn:F; [contradiction|].
    apply (findall_valid text). rewrite F, <- (Hall x (or_introl eq_refl)). now left. }
  unfold substitute_file. rewrite (iterate_single iterate i _ Hset Hne Hall).
  destruct (findall_placeholders text) as [|x l] eqn:F; [contradiction|].
  rewrite <- F in *. cbn [substitute_loop]. rewrite Hres.
  cbn [bind untouched content substitution_count resolved app Nat.add].
  rewrite (replace_in_template i v text Hi Hall).
  rewrite (count_in_template i text Hi), (all_same_count i _ Hall).
  reflexivity.
Qed.

Lemma single_identifier_is_one_pass_witness :
  substitute_file in_order
    (JObj [("1", JObj [("default", JStr "<1> or <2>")])]) "<1> and <<1>>" []
  = Returned
      {| content := "<1> or <2> and <<1> or <2>>";
         substitution_count := 2;
         resolved := [("1", "<1> or <2>")] |}.
Proof.
  assert (F : findall_placeholders "<1> and <<1>>" = ["1"; "1"])
    by (vm_compute; reflexivity).
  pose proof (single_identifier_is_one_pass in_order
                (JObj [("1", JObj [("default", JStr "<1> or <2>")])]) []
                "<1> and <<1>>" "1" "<1> or <2>" in_order_is_set) as H.
  rewrite F in H. vm_compute. apply H.
  - discriminate.
  - intros j [<-|[<-|[]]]; reflexivity.
  - vm_compute. reflexivity.
Defined.

(** ** The drivers: tags from the command line and from the profiles file *)

Lemma str_lstrip_idempotent (s : string) : str_lstrip (str_lstrip s) = str_lstrip s.
Proof.
  induction s as [|c s IH]; [reflexivity|]. cbn [str_lstrip].
  destruct (is_space c) eqn:E; [exact IH|]. cbn [str_lstrip]. now rewrite E.
Qed.

Lemma str_rstrip_idempotent (s : string) : str_rstrip (str_rstrip s) = str_rstrip s.
Proof.
  induction s as [|c s IH]; [reflexivity|]. cbn [str_rstrip].
  destruct (str_rstrip s) as [|d kept] eqn:E.
  - destruct (is_space c) eqn:Ec; [reflexivity|]. cbn [str_rstrip]. now rewrite Ec.
  - change (str_rstrip (String c (String d kept))) with
      (match str_rstrip (String d kept) with
       | EmptyString => if is_space c then EmptyString else String c EmptyString
       | k => String c k
       end).
    now rewrite IH.
Qed.

Lemma str_lstrip_keeps_rstripped (s : string) :
  str_rstrip s = s -> str_rstrip (str_lstrip s) = str_lstrip s.
Proof.
  induction s as [|c s IH]; [reflexivity|]. intros H. cbn [str_lstrip].
  destruct (is_space c) eqn:Ec; [|exact H].
  apply IH. cbn [str_rstrip] in H.
  destruct (str_rstrip s) as [|d kept]; [rewrite Ec in H; discriminate|].
  now injection H.
Qed.

Lemma str_strip_idempotent (s : string) : str_strip (str_strip s) = str_strip s.
Proof.
  unfold str_strip.
  rewrite (str_lstrip_keeps_rstripped _ (str_rstrip_idempotent s)).
  apply str_lstrip_idempotent.
Qed.

Lemma str_lstrip_no_char (x : ascii) (s : string) :
  has_char x s = false -> has_char x (str_lstrip s) = false.
Proof.
  induction s as [|c s IH]; [reflexivity|]. intros H. cbn [str_lstrip].
  destruct (is_space c); [|exact H].
  cbn [has_char] in H. apply orb_false_elim in H. now apply IH.
Qed.

Lemma str_rstrip_no_char (x : ascii) (s : string) :
  has_char x s = false -> has_char x (str_rstrip s) = false.
Proof.
  induction s as [|c s IH]; [reflexivity|]. intros H.
  cbn [has_char] in H. apply orb_false_elim in H. destruct H as [Hc Hs].
  cbn [str_rstrip]. specialize (IH Hs).
  destruct (str_rstrip s) as [|d kept].
  - destruct (is_space c); [reflexivity|]. cbn [has_char]. now rewrite Hc.
  - cbn [has_char] in *. now rewrite Hc, IH.
Qed.

Lemma str_strip_no_char (x : ascii) (s : string) :
  has_char x s = false -> has_char x (str_strip s) = false.
Proof. intros H. now apply str_lstrip_no_char, str_rstrip_no_char. Qed.

Lemma truthy_true (s : string) : truthy s = true <-> s <> EmptyString.
Proof. destruct s; split; try discriminate; try reflexivity. now intros H. Qed.

Lemma split_tags_clean (text : string) : Forall clean_tag (split_tags text).
Proof.
  apply Forall_forall. intros t Ht. unfold split_tags in Ht.
  apply in_map_iff in Ht. destruct Ht as [piece [<- Hpiece]].
  apply filter_In in Hpiece. destruct Hpiece as [Hin Hkeep].
  repeat split.
  - now apply truthy_true.
  - now apply str_strip_no_char, (split_on_pieces "," text).
  - apply str_strip_idempotent.
Qed.

Lemma split_on_free (sep : ascii) (s : string) :
  has_char sep s = false -> split_on sep s = [s].
Proof.
  induction s as [|c s IH]; cbn [has_char split_on]; [reflexivity|].
  rewrite Ascii.eqb_sym. destruct (Ascii.eqb c sep); cbn [orb]; [discriminate|].
  intros H. now rewrite (IH H).
Qed.

Lemma split_on_append (sep : ascii) (t x : string) :
  has_char sep t = false ->
  split_on sep (t ++ String sep x) = t :: split_on sep x.
Proof.
  induction t as [|c t IH]; cbn [has_char append split_on].
  - intros _. now rewrite Ascii.eqb_refl.
  - rewrite Ascii.eqb_sym. destruct (Ascii.eqb c sep); cbn [orb]; [discriminate|].
    intros H. now rewrite (IH H).
Qed.

Lemma split_on_concat (sep : ascii) (tags : list string) :
  tags <> [] -> Forall (fun t => has_char sep t = false) tags ->
  split_on sep (String.concat (String sep EmptyString) tags) = tags.
Proof.
  intros Hne H. induction H as [|t tags Ht Htags IH]; [contradiction|].
  destruct tags as [|u tags].
  - now apply split_on_free.
  - change (String.concat (String sep EmptyString) (t :: u :: tags))
      with (t ++ String sep (String.concat (String sep EmptyString) (u :: tags))).
    rewrite (split_on_append _ _ _ Ht), IH; [reflexivity | discriminate].
Qed.

(** Joining clean tags with commas and splitting the result gives the
    tags back. *)
Lemma split_tags_concat (tags : list string) :
  Forall clean_tag tags -> tags <> [] ->
  split_tags (String.concat "," tags) = tags.
Proof.
  intros Hclean Hne. unfold split_tags.
  rewrite split_on_concat; [|exact Hne|].
  - induction Hclean as [|t tags (Ht & _ & Hs) _ IH]; [reflexivity|].
    cbn [filter]. rewrite Hs.
    destruct t; [contradiction|]. cbn [truthy map]. rewrite Hs. f_equal.
    destruct tags; [reflexivity | apply IH; discriminate].
  - eapply Forall_impl; [|exact Hclean]. now intros t (_ & H & _).
Qed.

(** X14: the tags of a profile survive the way from [generate_resume],
    which joins them with commas, into [process_resume_substitution],
    which splits them again: the run uses exactly the profile's tags, in
    their order, with the tag of the country in front unless that tag is
    default. *)
Theorem profile_tags_reach_the_run
  (country : string) (tags : list string) (input_file : string) :
  Forall clean_tag tags ->
  run_tags (generate_resume_args country tags input_file) =
  match country with
  | EmptyString => tags
  | _ =>
      if String.eqb (map_country_to_tag country) "default" then tags
      else map_country_to_tag country :: tags
  end.
Proof.
  intros Hclean. unfold run_tags, generate_resume_args. cbn [arg_tags arg_country].
  assert (E : match given (Some (String.concat "," tags)) with
              | Some text => split_tags text
              | None => []
              end = tags).
  { destruct tags as [|t tags]; [reflexivity|].
    assert (Hjoin : String.concat "," (t :: tags) <> EmptyString).
    { inversion Hclean as [|? ? (Ht & _) _]; subst.
      destruct t; [contradiction|]. destruct tags; discriminate. }
    destruct (String.concat "," (t :: tags)) as [|c s] eqn:J; [contradiction|].
    cbn [given]. rewrite <- J. apply split_tags_concat; [exact Hclean | discriminate]. }
  rewrite E. destruct country; reflexivity.
Qed.

Lemma profile_tags_reach_the_run_witness :
  run_tags (generate_resume_args "Germany" ["data_scientist"; "machine learning"]
              "resume.tex")
  = ["europe"; "data_scientist"; "machine learning"].
Proof.
  refine (profile_tags_reach_the_run "Germany" ["data_scientist"; "machine learning"]
            "resume.tex" _).
  repeat constructor; discriminate.
Defined.

Lemma collect_profiles_clean (lines : list string) :
  Forall (fun profile => profile <> [] /\ Forall clean_tag profile)
         (collect_profiles lines).
Proof.
  induction lines as [|line lines IH]; cbn [collect_profiles]; [constructor|].
  destruct (truthy (str_strip line)); [|exact IH].
  pose proof (split_tags_clean line) as Hclean.
  destruct (split_tags line) as [|t tags]; [exact IH|].
  constructor; [split; [discriminate | exact Hclean] | exact IH].
Qed.

(** X15: what [read_profiles_file] returns is well formed: there is at
    least one country and at least one profile, no profile is empty, and
    every country and every tag is not empty, has no comma and no white
    space at its ends. *)
Theorem read_profiles_file_result_is_clean
  (file_lines : list string) (countries : list string) (profiles : list (list string)) :
  read_profiles_file file_lines = Completed (countries, profiles) ->
  countries <> [] /\ Forall clean_tag countries
  /\ profiles <> []
  /\ Forall (fun profile => profile <> [] /\ Forall clean_tag profile) profiles.
Proof.
  unfold read_profiles_file.
  destruct (map str_strip file_lines) as [|l0 ls]; [discriminate|].
  destruct (number_non_empty (l0 :: ls) 1) as [|[k first] others]; [discriminate|].
  pose proof (split_tags_clean first) as Hcountries.
  destruct (split_tags first) as [|c cs]; [discriminate|].
  pose proof (collect_profiles_clean (skipn k (l0 :: ls))) as Hprofiles.
  destruct (collect_profiles (skipn k (l0 :: ls))) as [|p ps]; [discriminate|].
  intros [= <- <-]. repeat split; try discriminate; assumption.
Qed.

Lemma read_profiles_file_result_is_clean_witness :
  ["USA"; "UK"] <> [] /\ Forall clean_tag ["USA"; "UK"]
  /\ [["data_scientist"; "finance"]; ["researcher"]] <> []
  /\ Forall (fun profile => profile <> [] /\ Forall clean_tag profile)
            [["data_scientist"; "finance"]; ["researcher"]].
Proof.
  refine (read_profiles_file_result_is_clean
            [String "010" EmptyString; " USA , UK,"; EmptyString;
             "data_scientist ,, finance"; " , "; "researcher";
             String "009" EmptyString]
            ["USA"; "UK"] [["data_scientist"; "finance"]; ["researcher"]] _).
  vm_compute. reflexivity.
Defined.






(** ** The driver: where the output goes *)

Lemma path_name_plain (s : string) : plain_segment s -> path_name (Path s) = s.
Proof. intros H. now rewrite (Path_plain _ H). Qed.

Lemma stem_suffix_slash_free (s : string) :
  plain_segment s ->
  has_char "/" (path_stem (Path s)) = false /\ has_char "/" (path_suffix (Path s)) = false.
Proof.
  intros H. pose proof (stem_suffix (Path s)) as E.
  rewrite (path_name_plain _ H) in E. destruct H as (Hs & _).
  rewrite <- E, has_char_append in Hs. now apply orb_false_elim in Hs.
Qed.

(** [with_stem] on a plain file name, for an addition to the stem that
    starts with an underscore and has no slash. *)
Lemma with_stem_plain (input addition : string) :
  plain_segment input -> has_char "/" addition = false ->
  let name := path_stem (Path input) ++ String "_" (addition ++ path_suffix (Path input)) in
  with_stem (Path input) (path_stem (Path input) ++ String "_" addition)
  = PathOk {| root := EmptyString; parts := [name] |}
  /\ plain_segment name.
Proof.
  intros Hinput Hadd name.
  destruct (stem_suffix_slash_free _ Hinput) as [Hstem Hsuffix].
  assert (Hslash : has_char "/" name = false).
  { unfold name. rewrite has_char_append. cbn [has_char].
    now rewrite has_char_append, Hstem, Hsuffix, Hadd. }
  assert (Hne : name <> EmptyString /\ name <> ".").
  { unfold name. destruct (path_stem (Path input)) as [|c [|d s]]; cbn [append];
      split; discriminate. }
  split; [|now repeat split].
  unfold with_stem, with_name. rewrite (path_name_plain _ Hinput).
  rewrite append_assoc. cbn [append]. fold name.
  rewrite (Path_plain _ Hinput). cbn [root parts removelast app].
  destruct Hinput as (_ & Hin & _). destruct input as [|c s]; [contradiction|].
  destruct Hne as [Hn1 Hn2]. rewrite Hslash.
  destruct (String.eqb_spec name "."); [contradiction|].
  destruct name; [contradiction | reflexivity].
Qed.

Lemma path_str_single (name : string) :
  path_str {| root := EmptyString; parts := [name] |} = name.
Proof. reflexivity. Qed.

Lemma joined_tags_slash_free (tags : list string) :
  Forall (fun t => has_char "/" t = false) tags ->
  has_char "/" (String.concat "_" tags) = false.
Proof. intros H. now apply has_char_concat. Qed.

(** X17: without [--output], and with folders switched off or no tag at
    all, the output of a plain input file name is that name with the
    tags, joined by underscores, added to its stem; with no tag the
    addition is _default. *)
Theorem flat_output_name (args : arguments) :
  given (arg_output args) = None ->
  plain_segment (arg_input args) ->
  Forall (fun t => has_char "/" t = false) (run_tags args) ->
  run_tags args = [] \/ arg_use_folders args && negb (arg_no_folders args) = false ->
  run_output_file args =
  PathOk (path_stem (Path (arg_input args))
          ++ match run_tags args with
             | [] => "_default"
             | tags => "_" ++ String.concat "_" tags
             end
          ++ path_suffix (Path (arg_input args))).
Proof.
  intros Hout Hinput Htags Hflat. unfold run_output_file. rewrite Hout.
  assert (E : (match run_tags args with [] => false | _ => true end
               && (arg_use_folders args && negb (arg_no_folders args))) = false).
  { destruct Hflat as [-> | ->]; [reflexivity | apply andb_false_r]. }
  rewrite E.
  destruct (run_tags args) as [|t tags] eqn:T.
  - destruct (with_stem_plain (arg_input args) "default" Hinput eq_refl) as [-> _].
    reflexivity.
  - change ("_" ++ String.concat "_" (t :: tags))
      with (String "_" (String.concat "_" (t :: tags))).
    destruct (with_stem_plain (arg_input args) (String.concat "_" (t :: tags)) Hinput
                (joined_tags_slash_free _ Htags)) as [-> _].
    reflexivity.
Qed.

Lemma flat_output_name_witness :
  run_output_file
    {| arg_tags := Some "academic, research"; arg_country := Some "Atlantis";
       arg_output := None; arg_input := "resume.tex";
       arg_use_folders := true; arg_no_folders := true |}
  = PathOk "resume_academic_research.tex"
  /\ run_output_file
       {| arg_tags := None; arg_country := Some "Atlantis";
          arg_output := None; arg_input := "resume.tex";
          arg_use_folders := true; arg_no_folders := false |}
     = PathOk "resume_default.tex".
Proof.
  split.
  - refine (flat_output_name
              {| arg_tags := Some "academic, research"; arg_country := Some "Atlantis";
                 arg_output := None; arg_input := "resume.tex";
                 arg_use_folders := true; arg_no_folders := true |} _ _ _ _).
    + reflexivity.
    + repeat split; discriminate.
    + vm_compute. repeat constructor.
    + right. reflexivity.
  - refine (flat_output_name
              {| arg_tags := None; arg_country := Some "Atlantis";
                 arg_output := None; arg_input := "resume.tex";
                 arg_use_folders := true; arg_no_folders := false |} _ _ _ _).
    + reflexivity.
    + repeat split; discriminate.
    + vm_compute. constructor.
    + left. reflexivity.
Defined.

(** X18: without [--output], with folders on and at least one tag, the
    output of a plain input file name goes to country segment / folder
    name / Position, under the input's name with all the tags of the run,
    the country's tag included, added to its stem; the country segment
    is the name given with [--country] and the folder name is made of the
    tags that are neither country nor position tags. *)
Theorem folder_output_name (args : arguments) (country : string) :
  given (arg_output args) = None ->
  given (arg_country args) = Some country ->
  arg_use_folders args = true -> arg_no_folders args = false ->
  run_tags args <> [] ->
  plain_segment (arg_input args) -> plain_segment country ->
  Forall (fun t => has_char "/" t = false) (run_tags args) ->
  run_output_file args =
  PathOk (country ++ "/"
          ++ folder_name_of (filter is_other_tag (run_tags args))
          ++ "/Position/"
          ++ path_stem (Path (arg_input args))
          ++ "_" ++ String.concat "_" (run_tags args)
          ++ path_suffix (Path (arg_input args))).
Proof.
  intros Hout Hcountry Hfolders Hno Hne Hinput Hplain Htags.
  unfold run_output_file, run_country_original.
  rewrite Hout, Hcountry, Hfolders, Hno.
  destruct (run_tags args) as [|t tags] eqn:T; [contradiction|].
  cbn [andb negb].
  change ("_" ++ String.concat "_" (t :: tags))
    with (String "_" (String.concat "_" (t :: tags))).
  destruct (with_stem_plain (arg_input args) (String.concat "_" (t :: tags)) Hinput
              (joined_tags_slash_free _ Htags)) as [-> Hname].
  f_equal. rewrite create_folder_structure_from_buckets.
  rewrite path_str_single, (path_name_plain _ Hname).
  assert (Hfolder : plain_segment (folder_name_of (filter is_other_tag (t :: tags)))).
  { apply folder_name_plain. rewrite Forall_forall in *. intros x Hx.
    apply filter_In in Hx. now apply Htags. }
  assert (Eseg : folder_country_of country
                   (or_else (last_match country_tags (t :: tags)) "default") = country).
  { destruct country; [now destruct Hplain as (_ & H & _) | reflexivity]. }
  rewrite Eseg, (Path_plain _ Hplain), (joinpath_plain _ _ Hfolder).
  rewrite (joinpath_plain _ "Position") by (repeat split; discriminate).
  rewrite (joinpath_plain _ _ Hname). cbn [root parts app].
  reflexivity.
Qed.

Lemma folder_output_name_witness :
  run_output_file (generate_resume_args "Germany" ["data_scientist"; "finance"] "resume.tex")
  = PathOk "Germany/_base_finance/Position/resume_europe_data_scientist_finance.tex".
Proof.
  refine (folder_output_name
            (generate_resume_args "Germany" ["data_scientist"; "finance"] "resume.tex")
            "Germany" _ _ _ _ _ _ _ _).
  - reflexivity.
  - reflexivity.
  - reflexivity.
  - reflexivity.
  - vm_compute. discriminate.
  - repeat split; discriminate.
  - repeat split; discriminate.
  - vm_compute. repeat constructor.
Defined.
